(** * BroadcastEnumerator: LAN peer discovery over UDP broadcast

    A shallow embedding of [src/plugins/broadcast/broadcastenumerator.cpp].
    The enumerator is an event-driven object: four slots
    ([onBroadcastTimeout], [onExpiryTimeout], [onReadyRead],
    [onSettingsChanged]) run to completion on one thread.  Each slot is
    a function on the object's fields; everything a slot does to the
    outside (datagrams written, signals emitted, log messages, timer and
    socket calls) is appended, in program order, to a list of effects. *)

From Stdlib Require Import ZArith SpecFloat.
From stdpp Require Import base gmap sets list strings pretty.
From Equations Require Import Equations.
From Equations.Prop Require Import Logic.

Set Warnings "-register-all".
Local Open Scope Z_scope.

(** ** Library data types *)

Abbreviation QString := string.
Abbreviation QStringList := (list string).
Abbreviation QByteArray := (list Byte.byte).
Abbreviation qint64 := Z.

(** A C++ [double]. *)
Abbreviation double := spec_float.

(** The null [QString], which is what a default-constructed [QVariant]
    converts to. *)
Definition QString_null : QString := EmptyString.

(** [QHostAddress]: default-constructed (null), or an IPv4 or IPv6
    address given by its numeric value. *)
Inductive QHostAddress :=
| NullAddress
| IPv4 (a : N)
| IPv6 (a : N).

Global Instance QHostAddress_eq_dec : EqDecision QHostAddress.
Proof. solve_decision. Defined.

Global Instance QHostAddress_countable : Countable QHostAddress.
Proof.
  refine (inj_countable'
    (λ a, match a with
          | NullAddress => inl ()
          | IPv4 n => inr (inl n)
          | IPv6 n => inr (inr n)
          end)
    (λ x, match x with
          | inl _ => NullAddress
          | inr (inl n) => IPv4 n
          | inr (inr n) => IPv6 n
          end) _).
  by intros [].
Defined.

Definition isNull (a : QHostAddress) : bool :=
  match a with NullAddress => true | _ => false end.

(** [QHostAddress::Any]: the dual-stack wildcard address. *)
Inductive BindAddress := AnyAddress | SpecificAddress (a : QHostAddress).

(** [QNetworkInterface::InterfaceFlag] values. *)
Definition IsUp : Z := 1.
Definition IsRunning : Z := 2.
Definition CanBroadcast : Z := 4.
Definition IsLoopBack : Z := 8.
Definition IsPointToPoint : Z := 16.
Definition CanMulticast : Z := 32.

Record QNetworkAddressEntry := {
  ip : QHostAddress;
  broadcast : QHostAddress
}.

Record QNetworkInterface := {
  flags : Z;
  addressEntries : list QNetworkAddressEntry
}.

(** JSON values and documents. *)
Inductive QJsonValue :=
| JNull
| JBool (b : bool)
| JDouble (d : double)
| JString (s : QString)
| JArray (l : list QJsonValue)
| JObject (o : gmap string QJsonValue).

Abbreviation QJsonObject := (gmap string QJsonValue).

(** What [QJsonDocument::fromJson] can return: a null document when the
    text does not parse, or a document holding an array or an object. *)
Inductive QJsonDocument :=
| NullDocument
| ArrayDocument (l : list QJsonValue)
| ObjectDocument (o : QJsonObject).

(** [QJsonDocument::object]: an empty object unless the document holds
    an object. *)
Definition object (d : QJsonDocument) : QJsonObject :=
  match d with
  | ObjectDocument o => o
  | NullDocument | ArrayDocument _ => ∅
  end.

Inductive QVariant :=
| VInvalid
| VBool (b : bool)
| VDouble (d : double)
| VString (s : QString)
| VStringList (l : QStringList)
| VList (l : list QVariant)
| VMap (m : gmap string QVariant).

Abbreviation QVariantMap := (gmap string QVariant).

(** [QJsonValue::toVariant]. *)
Fixpoint toVariant (v : QJsonValue) : QVariant :=
  match v with
  | JNull => VInvalid
  | JBool b => VBool b
  | JDouble d => VDouble d
  | JString s => VString s
  | JArray l => VList (map toVariant l)
  | JObject o => VMap (toVariant <$> o)
  end.

(** [QJsonObject::toVariantMap]. *)
Definition toVariantMap (o : QJsonObject) : QVariantMap := toVariant <$> o.

(** [QMap::take]: removes the key and returns its value, or a
    default-constructed value when the key is absent. *)
Definition take (key : QString) (m : QVariantMap) : QVariant * QVariantMap :=
  (default VInvalid (m !! key), delete key m).

(** The library functions whose results the enumerator only passes on:
    the JSON writer and parser and the text forms of addresses and
    numbers. *)
Class QtText := {
  toJson : QJsonObject → QByteArray;
  fromJson : QByteArray → QJsonDocument;
  QHostAddress_toString : QHostAddress → QString;
  QString_number : double → QString
}.

(** [QVariant::toString]: strings as they are, booleans and numbers in
    their text form, a one-element string list as its element, anything
    else as the null string. *)
Definition QVariant_toString `{QtText} (v : QVariant) : QString :=
  match v with
  | VString s => s
  | VBool true => "true"
  | VBool false => "false"
  | VDouble d => QString_number d
  | VStringList [s] => s
  | _ => QString_null
  end.

(** ** Collaborators *)

(** [Message::Type]. *)
Inductive MessageType := Debug | Info | Warning | Error.

Record Message := {
  msgType : MessageType;
  msgTag : QString;
  msgBody : QString
}.

Inductive TimerId := BroadcastTimer | ExpiryTimer.

(** Everything a slot does that is visible outside the object. *)
Inductive Effect :=
| TimerStop (t : TimerId)
| TimerSetInterval (t : TimerId) (msec : Z)
| TimerStart (t : TimerId)
| SocketClose
| SocketBind (address : BindAddress) (port : Z) (ok : bool)
| WriteDatagram (data : QByteArray) (address : QHostAddress) (port : Z)
                (ok : bool)
| DeviceUpdated (uuid : QString) (properties : QVariantMap)
| DeviceRemoved (uuid : QString)
| Log (m : Message).

(** The surroundings of the object at the time a slot runs: the host's
    interfaces, the application's identity and settings, the clock, and
    how the operating system answers a send and a bind. *)
Record World := {
  allInterfaces : list QNetworkInterface;
  deviceUuid : QString;
  deviceName : QString;
  (** [settingsRegistry()->value(key).toInt()] *)
  settingsValue : QString → Z;
  currentMSecsSinceEpoch : qint64;
  (** whether a datagram to this address and port is accepted *)
  sendAccepted : QHostAddress → Z → bool;
  (** [None] when binding the port succeeds, else the socket's
      [errorString()] *)
  bindError : Z → option QString
}.

(** ** The object's fields *)

Record QTimer := {
  isActive : bool;
  interval : Z
}.

Inductive SocketState := UnconnectedState | BoundState.

Record Datagram := {
  payload : QByteArray;
  sender : QHostAddress
}.

Record QUdpSocket := {
  state : SocketState;
  localPort : Z;
  pendingDatagrams : list Datagram;
  errorString : QString
}.

Global Instance SocketState_eq_dec : EqDecision SocketState.
Proof. solve_decision. Defined.

(** Modelled from the spec: the class declaration (broadcastenumerator.h)
    is not among the sources.  [mDevices] is the peer table, peer id to
    the millisecond timestamp of the last datagram seen from it, as
    [onExpiryTimeout] reads it; its entries are kept in the container's
    iteration order. *)
Record BroadcastEnumerator := {
  mBroadcastTimer : QTimer;
  mExpiryTimer : QTimer;
  mSocket : QUdpSocket;
  mDevices : list (QString * qint64);
  effects : list Effect
}.

Definition set_mBroadcastTimer (t : QTimer) (st : BroadcastEnumerator) :=
  {| mBroadcastTimer := t; mExpiryTimer := mExpiryTimer st;
     mSocket := mSocket st; mDevices := mDevices st; effects := effects st |}.

Definition set_mExpiryTimer (t : QTimer) (st : BroadcastEnumerator) :=
  {| mBroadcastTimer := mBroadcastTimer st; mExpiryTimer := t;
     mSocket := mSocket st; mDevices := mDevices st; effects := effects st |}.

Definition set_mSocket (s : QUdpSocket) (st : BroadcastEnumerator) :=
  {| mBroadcastTimer := mBroadcastTimer st; mExpiryTimer := mExpiryTimer st;
     mSocket := s; mDevices := mDevices st; effects := effects st |}.

Definition set_mDevices (d : list (QString * qint64))
    (st : BroadcastEnumerator) :=
  {| mBroadcastTimer := mBroadcastTimer st; mExpiryTimer := mExpiryTimer st;
     mSocket := mSocket st; mDevices := d; effects := effects st |}.

(** Appends one effect to the object's history. *)
Definition perform (e : Effect) (st : BroadcastEnumerator) :=
  {| mBroadcastTimer := mBroadcastTimer st; mExpiryTimer := mExpiryTimer st;
     mSocket := mSocket st; mDevices := mDevices st;
     effects := effects st ++ [e] |}.

(** ** Constants of the source file *)

Definition MessageTag : QString := "broadcast".
Definition BroadcastInterval : QString := "BroadcastInterval".
Definition BroadcastExpiry : QString := "BroadcastExpiry".
Definition BroadcastPort : QString := "BroadcastPort".

(** Modelled from the spec: [DeviceEnumerator::UuidKey] and
    [DeviceEnumerator::NameKey] are declared in a header that is not
    among the sources; the wire format names the fields [uuid] and
    [name]. *)
Definition UuidKey : QString := "uuid".
Definition NameKey : QString := "name".

(** ** Socket and timer calls *)

(** [quint16] conversion of the [int] handed to [bind]. *)
Definition to_quint16 (n : Z) : Z := n mod 65536.

(** [QUdpSocket::close]: the socket is unconnected afterwards, its local
    port reads 0 and what was waiting to be read is gone. *)
Definition close (s : QUdpSocket) : QUdpSocket :=
  {| state := UnconnectedState; localPort := 0; pendingDatagrams := [];
     errorString := errorString s |}.

(** [QUdpSocket::bind(address, port)] for a given port: [true] and a
    socket bound to that port when the operating system grants it;
    otherwise [false], and the socket stays as it was but for its error
    string.  A request for port 0 asks the operating system to choose
    the port; the port it then reports is not modelled, and the
    properties on the port of a granted bind are stated for requests
    other than 0. *)
Definition bind (w : World) (port : Z) (s : QUdpSocket) : bool * QUdpSocket :=
  match bindError w port with
  | None => (true, {| state := BoundState; localPort := port;
                      pendingDatagrams := pendingDatagrams s;
                      errorString := errorString s |})
  | Some e => (false, {| state := state s; localPort := localPort s;
                         pendingDatagrams := pendingDatagrams s;
                         errorString := e |})
  end.

(** [QUdpSocket::readDatagram] with a buffer of [pendingDatagramSize()]
    bytes: takes the first waiting datagram whole, with its sender. *)
Definition readDatagram (s : QUdpSocket) : Datagram * QUdpSocket :=
  match pendingDatagrams s with
  | d :: rest => (d, {| state := state s; localPort := localPort s;
                        pendingDatagrams := rest;
                        errorString := errorString s |})
  | [] => ({| payload := []; sender := NullAddress |}, s)
  end.

(** [QUdpSocket::hasPendingDatagrams]: [false] on a socket that is not
    bound. *)
Definition hasPendingDatagrams (s : QUdpSocket) : bool :=
  match state s, pendingDatagrams s with
  | BoundState, _ :: _ => true
  | _, _ => false
  end.

(** [mSocket.writeDatagram(data, address, port)] on a bound socket.
    The call is recorded with the operating system's answer; the value
    it returns is dropped by the caller; the socket stays as it is.
    On a socket that is not bound the library binds it first:
    [writeDatagramAny] below is the call on a socket in any state. *)
Definition writeDatagram (w : World) (data : QByteArray)
    (address : QHostAddress) (port : Z) (st : BroadcastEnumerator)
    : BroadcastEnumerator :=
  perform (WriteDatagram data address port (sendAccepted w address port)) st.

Definition stop (t : QTimer) : QTimer :=
  {| isActive := false; interval := interval t |}.

Definition setInterval (msec : Z) (t : QTimer) : QTimer :=
  {| isActive := isActive t; interval := msec |}.

Definition start (t : QTimer) : QTimer :=
  {| isActive := true; interval := interval t |}.

Definition timer (t : TimerId) (st : BroadcastEnumerator) : QTimer :=
  match t with
  | BroadcastTimer => mBroadcastTimer st
  | ExpiryTimer => mExpiryTimer st
  end.

Definition set_timer (t : TimerId) (q : QTimer) (st : BroadcastEnumerator)
    : BroadcastEnumerator :=
  match t with
  | BroadcastTimer => set_mBroadcastTimer q st
  | ExpiryTimer => set_mExpiryTimer q st
  end.

(** The three timer calls of [onSettingsChanged], on the object. *)
Definition timerStop (t : TimerId) (st : BroadcastEnumerator) :=
  perform (TimerStop t) (set_timer t (stop (timer t st)) st).

Definition timerSetInterval (t : TimerId) (msec : Z)
    (st : BroadcastEnumerator) :=
  perform (TimerSetInterval t msec)
          (set_timer t (setInterval msec (timer t st)) st).

Definition timerStart (t : TimerId) (st : BroadcastEnumerator) :=
  perform (TimerStart t) (set_timer t (start (timer t st)) st).

(** ** The slots *)

Section Slots.
Context `{QtText}.

(** *** onBroadcastTimeout *)

(** The body of the inner [foreach]: one address entry. *)
Definition insertBroadcast (addresses : gset QHostAddress)
    (entry : QNetworkAddressEntry) : gset QHostAddress :=
  if isNull (broadcast entry) then addresses
  else {[ broadcast entry ]} ∪ addresses.

(** The body of the outer [foreach]: one interface. *)
Definition insertInterface (addresses : gset QHostAddress)
    (interface : QNetworkInterface) : gset QHostAddress :=
  if Z.land (flags interface) CanBroadcast =? 0 then addresses
  else foldl insertBroadcast addresses (addressEntries interface).

Definition broadcastAddresses (w : World) : gset QHostAddress :=
  foldl insertInterface ∅ (allInterfaces w).

(** The packet that will be broadcast. *)
Definition packet (w : World) : QByteArray :=
  toJson (<[UuidKey := JString (deviceUuid w)]>
          (<[NameKey := JString (deviceName w)]> ∅)).

(** The last [foreach]: one [writeDatagram] per address of the set,
    each reading [mSocket.localPort()] anew. *)
Definition broadcastPacket (w : World) (data : QByteArray)
    (addresses : list QHostAddress) (st : BroadcastEnumerator)
    : BroadcastEnumerator :=
  foldl (λ st address,
           writeDatagram w data address (localPort (mSocket st)) st)
        st addresses.

Definition onBroadcastTimeout (w : World) (st : BroadcastEnumerator)
    : BroadcastEnumerator :=
  let addresses := broadcastAddresses w in
  let data := packet w in
  broadcastPacket w data (elements addresses) st.

(** *** onExpiryTimeout *)

(** A slot either returns, or runs into behaviour the language leaves
    undefined. *)
Inductive Outcome (A : Type) :=
| Returns (a : A)
| UndefinedBehaviour.
Global Arguments Returns {A} a.
Global Arguments UndefinedBehaviour {A}.

Global Instance Outcome_ret : MRet Outcome := λ A a, Returns a.
Global Instance Outcome_bind : MBind Outcome := λ A B f m,
  match m with
  | Returns a => f a
  | UndefinedBehaviour => UndefinedBehaviour
  end.
Global Instance Outcome_fmap : FMap Outcome := λ A B f m,
  match m with
  | Returns a => Returns (f a)
  | UndefinedBehaviour => UndefinedBehaviour
  end.

(** An iterator into [mDevices]: the position of an entry (the number
    of entries for [end()]), or an iterator whose entry has been
    erased from the container. *)
Inductive iterator :=
| Position (n : nat)
| Erased.

Global Instance iterator_eq_dec : EqDecision iterator.
Proof. solve_decision. Defined.

Definition devices_begin (m : list (QString * qint64)) : iterator :=
  Position 0.

Definition devices_end (m : list (QString * qint64)) : iterator :=
  Position (length m).

(** [i.key()] and [i.value()]: defined on an iterator that points at
    an entry. *)
Definition iterator_entry (m : list (QString * qint64)) (i : iterator)
    : Outcome (QString * qint64) :=
  match i with
  | Position n =>
      match m !! n with
      | Some e => Returns e
      | None => UndefinedBehaviour
      end
  | Erased => UndefinedBehaviour
  end.

Definition key (m : list (QString * qint64)) (i : iterator)
    : Outcome QString :=
  fst <$> iterator_entry m i.

Definition value (m : list (QString * qint64)) (i : iterator)
    : Outcome qint64 :=
  snd <$> iterator_entry m i.

(** [++i]: defined on an iterator that points at an entry. *)
Definition increment (m : list (QString * qint64)) (i : iterator)
    : Outcome iterator :=
  match i with
  | Position n =>
      if decide (n < length m)%nat then Returns (Position (S n))
      else UndefinedBehaviour
  | Erased => UndefinedBehaviour
  end.

(** [mDevices.erase(i)]: removes the entry [i] points at and returns
    an iterator to the entry after it.  Iterators to the removed entry
    are not valid afterwards. *)
Definition erase (m : list (QString * qint64)) (i : iterator)
    : Outcome (list (QString * qint64) * iterator) :=
  match i with
  | Position n =>
      if decide (n < length m)%nat then Returns (delete n m, Position n)
      else UndefinedBehaviour
  | Erased => UndefinedBehaviour
  end.

(** 64-bit two's complement wrap-around of a [qint64] result. *)
Definition wrap64 (z : Z) : qint64 := (z + 2 ^ 63) mod 2 ^ 64 - 2 ^ 63.

(** One turn of the [while] loop: the [if] and the [++i].  After
    [mDevices.erase(i)], whose result is dropped, [i] is an iterator
    to an erased entry, and it is [i] that [i.key()] and [++i] use. *)
Definition expiryStep (ms : qint64) (expiry : Z) (i : iterator)
    (st : BroadcastEnumerator) : Outcome (iterator * BroadcastEnumerator) :=
  v ← value (mDevices st) i;
  if decide (wrap64 (ms - v) > expiry) then
    '(devices, _) ← erase (mDevices st) i;
    let st := set_mDevices devices st in
    let i := Erased in
    k ← key (mDevices st) i;
    let st := perform (DeviceRemoved k) st in
    i ← increment (mDevices st) i;
    Returns (i, st)
  else
    i ← increment (mDevices st) i;
    Returns (i, st).

(** Entries still ahead of the iterator. *)
Definition ahead (i : iterator) (st : BroadcastEnumerator) : nat :=
  match i with
  | Position n => length (mDevices st) - n
  | Erased => 0
  end.

(** The [while (i != mDevices.end())] loop. *)
Equations? expiryLoop (ms : qint64) (expiry : Z) (i : iterator)
    (st : BroadcastEnumerator) : Outcome BroadcastEnumerator
    by wf (ahead i st) lt :=
  expiryLoop ms expiry i st with decide (i = devices_end (mDevices st)) := {
    | left _ := Returns st
    | right _ with inspect (expiryStep ms expiry i st) := {
        | exist _ UndefinedBehaviour _ := UndefinedBehaviour
        | exist _ (Returns (i', st')) Hstep := expiryLoop ms expiry i' st'
      }
  }.
Proof.
  clear expiryLoop. revert Hstep.
  unfold expiryStep, value, key, iterator_entry.
  destruct i as [pos|]; [|done].
  destruct (mDevices st !! pos) as [[k v]|] eqn:Hpos; [|done]. cbn.
  apply lookup_lt_Some in Hpos.
  case_decide.
  - destruct (decide (pos < length (mDevices st))%nat); done.
  - destruct (decide (pos < length (mDevices st))%nat); [|done].
    cbn. intros [= <- <-]. cbn. lia.
Qed.

Definition onExpiryTimeout (w : World) (st : BroadcastEnumerator)
    : Outcome BroadcastEnumerator :=
  let ms := currentMSecsSinceEpoch w in
  let expiry := settingsValue w BroadcastExpiry in
  expiryLoop ms expiry (devices_begin (mDevices st)) st.

(** *** onReadyRead *)

(** The body of the [while] loop once the datagram is read: decode,
    inject the sender's address, split off the uuid, emit. *)
Definition deviceUpdate (d : Datagram) : Effect :=
  let properties := toVariantMap (object (fromJson (payload d))) in
  let properties :=
    <["addresses" := VStringList [QHostAddress_toString (sender d)]]>
      properties in
  let '(v, properties) := take "uuid" properties in
  let uuid := QVariant_toString v in
  DeviceUpdated uuid properties.

Equations? onReadyRead (st : BroadcastEnumerator) : BroadcastEnumerator
    by wf (length (pendingDatagrams (mSocket st))) lt :=
  onReadyRead st with inspect (hasPendingDatagrams (mSocket st)) := {
    | exist _ false _ := st
    | exist _ true Hpending with inspect (readDatagram (mSocket st)) := {
        | exist _ (d, socket) Hread :=
            onReadyRead (perform (deviceUpdate d) (set_mSocket socket st))
      }
  }.
Proof.
  clear onReadyRead. unfold hasPendingDatagrams, readDatagram in *.
  destruct (state (mSocket st)); [done|].
  destruct (pendingDatagrams (mSocket st)); [done|].
  injection Hread as <- <-. cbn. lia.
Qed.

(** *** onSettingsChanged *)

Definition contains (keys : QStringList) (k : QString) : bool :=
  bool_decide (k ∈ keys).

(** The body of [if (keys.contains(BroadcastInterval))]. *)
Definition intervalChanged (w : World) (st : BroadcastEnumerator)
    : BroadcastEnumerator :=
  let st := timerStop BroadcastTimer st in
  let st := timerSetInterval BroadcastTimer
              (settingsValue w BroadcastInterval) st in
  let st := onBroadcastTimeout w st in
  timerStart BroadcastTimer st.

(** The body of [if (keys.contains(BroadcastExpiry))]. *)
Definition expiryChanged (w : World) (st : BroadcastEnumerator)
    : Outcome BroadcastEnumerator :=
  let st := timerStop ExpiryTimer st in
  let st := timerSetInterval ExpiryTimer
              (settingsValue w BroadcastExpiry) st in
  st ← onExpiryTimeout w st;
  Returns (timerStart ExpiryTimer st).

(** The body of [if (keys.contains(BroadcastPort))]. *)
Definition portChanged (w : World) (st : BroadcastEnumerator)
    : BroadcastEnumerator :=
  let st := perform SocketClose (set_mSocket (close (mSocket st)) st) in
  let port := to_quint16 (settingsValue w BroadcastPort) in
  let '(ok, socket) := bind w port (mSocket st) in
  let st := perform (SocketBind AnyAddress port ok)
                    (set_mSocket socket st) in
  if negb ok then
    perform (Log {| msgType := Error; msgTag := MessageTag;
                    msgBody := errorString (mSocket st) |}) st
  else st.

Definition onSettingsChanged (w : World) (keys : QStringList)
    (st : BroadcastEnumerator) : Outcome BroadcastEnumerator :=
  st ← (if contains keys BroadcastInterval
        then Returns (intervalChanged w st) else Returns st);
  st ← (if contains keys BroadcastExpiry
        then expiryChanged w st else Returns st);
  if contains keys BroadcastPort
  then Returns (portChanged w st) else Returns st.

(** *** The constructor *)

(** The object before the constructor's body runs: timers and socket
    default-constructed, the peer table empty. *)
Definition constructed : BroadcastEnumerator := {|
  mBroadcastTimer := {| isActive := false; interval := 0 |};
  mExpiryTimer := {| isActive := false; interval := 0 |};
  mSocket := {| state := UnconnectedState; localPort := 0;
                pendingDatagrams := []; errorString := EmptyString |};
  mDevices := [];
  effects := []
|}.

(** The constructor's body from its last line on: load the initial
    settings.  The three [settingsRegistry()->add] calls before it act
    on the registry, which is not among the sources, and leave the
    fields of the object as they are. *)
Definition constructor (w : World) : Outcome BroadcastEnumerator :=
  onSettingsChanged w [BroadcastInterval; BroadcastExpiry; BroadcastPort]
                    constructed.

End Slots.

(** ** Vocabulary of the properties *)

(** The test [onBroadcastTimeout] makes on an interface. *)
Definition broadcastCapable (interface : QNetworkInterface) : Prop :=
  Z.land (flags interface) CanBroadcast ≠ 0.

(** The datagram a tick writes for one address. *)
Definition announce `{QtText} (w : World) (port : Z) (a : QHostAddress)
    : Effect :=
  WriteDatagram (packet w) a port (sendAccepted w a port).

(** The test [onExpiryTimeout] makes on a record of the peer table. *)
Definition expired (w : World) (record : QString * qint64) : Prop :=
  wrap64 (currentMSecsSinceEpoch w - snd record)
  > settingsValue w BroadcastExpiry.

Global Instance expired_dec w record : Decision (expired w record).
Proof. unfold expired. apply _. Defined.

(** The datagrams among a list of effects. *)
Definition isWrite (e : Effect) : bool :=
  match e with WriteDatagram _ _ _ _ => true | _ => false end.

Definition written (es : list Effect) : list Effect :=
  List.filter isWrite es.


(** ** A concrete network for the examples *)

Module Lab.

Definition quoted (s : string) : string :=
  String (Ascii.ascii_of_nat 34) (s +:+ String (Ascii.ascii_of_nat 34) EmptyString).

(** What a node announcing [uuid] and [name] puts on the wire. *)
Definition announcement (uuid name : string) : QByteArray :=
  String.list_byte_of_string
    ("{" +:+ quoted "name" +:+ ":" +:+ quoted name +:+ ","
         +:+ quoted "uuid" +:+ ":" +:+ quoted uuid +:+ "}").

Definition stringField (o : QJsonObject) (k : string) : string :=
  match o !! k with
  | Some (JString s) => s
  | _ => EmptyString
  end.

(** A packet from a newer peer, with fields this version does not
    know and an address claim of its own. *)
Definition newerPeer : QByteArray :=
  String.list_byte_of_string
    ("{" +:+ quoted "addresses" +:+ ":[" +:+ quoted "203.0.113.7" +:+ "],"
         +:+ quoted "busy" +:+ ":false,"
         +:+ quoted "name" +:+ ":" +:+ quoted "Bob" +:+ ","
         +:+ quoted "uuid" +:+ ":" +:+ quoted "B2" +:+ ","
         +:+ quoted "version" +:+ ":" +:+ quoted "0.4" +:+ "}").

Definition newerPeerObject : QJsonObject :=
  <["addresses" := JArray [JString "203.0.113.7"]]>
  (<["busy" := JBool false]>
  (<["name" := JString "Bob"]>
  (<["uuid" := JString "B2"]>
  (<["version" := JString "0.4"]> ∅)))).

(** Well-formed JSON that is not an object. *)
Definition listPacket : QByteArray := String.list_byte_of_string "[1]".

(** Not JSON at all. *)
Definition noise : QByteArray := String.list_byte_of_string "hello".

Definition dotted (a : N) : string :=
  (pretty (a / 16777216) +:+ "." +:+ pretty (a / 65536 mod 256) +:+ "."
    +:+ pretty (a / 256 mod 256) +:+ "." +:+ pretty (a mod 256))%N.

(** The library on the inputs the examples use: the writer prints the
    two string fields of an announcement, the parser knows the packets
    named above and takes everything else for unparsable. *)
Definition text : QtText := {|
  toJson o := announcement (stringField o "uuid") (stringField o "name");
  fromJson data :=
    if decide (String.string_of_list_byte data
               = String.string_of_list_byte (announcement "A1" "Alice"))
    then ObjectDocument (<["name" := JString "Alice"]>
                         (<["uuid" := JString "A1"]> ∅))
    else if decide (String.string_of_list_byte data
                    = String.string_of_list_byte newerPeer)
    then ObjectDocument newerPeerObject
    else if decide (String.string_of_list_byte data
                    = String.string_of_list_byte listPacket)
    then ArrayDocument [JDouble (S754_finite false 1 0)]
    else NullDocument;
  QHostAddress_toString a :=
    match a with
    | NullAddress => EmptyString
    | IPv4 n => dotted n
    | IPv6 n => "::" +:+ pretty n
    end;
  QString_number d :=
    match d with
    | S754_finite false m 0 => pretty (Npos m)
    | _ => "nan"
    end
|}.

Definition ipv4 (a b c d : N) : QHostAddress :=
  IPv4 (((a * 256 + b) * 256 + c) * 256 + d)%N.

Definition entry4 (address bcast : QHostAddress) : QNetworkAddressEntry :=
  {| ip := address; broadcast := bcast |}.

(** Loopback, two interfaces on one subnet, two more on subnets of
    their own, and a point-to-point tunnel. *)
Definition interfaces : list QNetworkInterface :=
  [ {| flags := IsUp + IsRunning + IsLoopBack;
       addressEntries := [entry4 (ipv4 127 0 0 1) NullAddress] |};
    {| flags := IsUp + IsRunning + CanBroadcast + CanMulticast;
       addressEntries := [entry4 (ipv4 192 168 1 10) (ipv4 192 168 1 255);
                          entry4 (IPv6 1) NullAddress] |};
    {| flags := IsUp + IsRunning + CanBroadcast + CanMulticast;
       addressEntries := [entry4 (ipv4 192 168 1 11) (ipv4 192 168 1 255)] |};
    {| flags := IsUp + IsRunning + CanBroadcast + CanMulticast;
       addressEntries := [entry4 (ipv4 10 0 0 5) (ipv4 10 0 0 255)] |};
    {| flags := IsUp + CanBroadcast;
       addressEntries := [entry4 (ipv4 172 16 0 9) (ipv4 172 16 0 255)] |};
    {| flags := IsUp + IsRunning + IsPointToPoint;
       addressEntries := [entry4 (ipv4 10 8 0 2) (ipv4 10 8 0 255)] |} ].

(** Default settings; sends to 10.0.0.255 fail; port 80 cannot be
    bound. *)
Definition world (now : qint64) (port : Z) : World := {|
  allInterfaces := interfaces;
  deviceUuid := "L0";
  deviceName := "Local";
  settingsValue k :=
    if decide (k = BroadcastInterval) then 5000
    else if decide (k = BroadcastExpiry) then 30000
    else if decide (k = BroadcastPort) then port
    else 0;
  currentMSecsSinceEpoch := now;
  sendAccepted a _ := bool_decide (a ≠ ipv4 10 0 0 255);
  bindError p := if decide (p = 80) then Some "permission denied" else None
|}.

(** The enumerator as its constructor leaves it with the default
    settings, with the given datagrams waiting and the given peer
    table, and an empty history. *)
Definition running (pending : list Datagram)
    (devices : list (QString * qint64)) : BroadcastEnumerator := {|
  mBroadcastTimer := {| isActive := true; interval := 5000 |};
  mExpiryTimer := {| isActive := true; interval := 30000 |};
  mSocket := {| state := BoundState; localPort := 40816;
                pendingDatagrams := pending;
                errorString := EmptyString |};
  mDevices := devices;
  effects := []
|}.




End Lab.

(** ** The object among its signals *)

(** The signals the constructor connects to the slots: the two timers'
    [timeout], the socket's [readyRead], raised when datagrams have
    reached the socket, and the registry's [settingsChanged]. *)
Inductive Signal :=
| BroadcastTimerTimeout
| ExpiryTimerTimeout
| SocketReadyRead (arrived : list Datagram)
| SettingsChanged (keys : QStringList).

(** Datagrams reaching the host are queued on a bound socket, behind
    those already waiting, and are lost on a socket that is not
    bound. *)
Definition arrive (ds : list Datagram) (st : BroadcastEnumerator)
    : BroadcastEnumerator :=
  match state (mSocket st) with
  | BoundState =>
      set_mSocket {| state := BoundState;
                     localPort := localPort (mSocket st);
                     pendingDatagrams := pendingDatagrams (mSocket st) ++ ds;
                     errorString := errorString (mSocket st) |} st
  | UnconnectedState => st
  end.

(** One signal delivered: the slot connected to it runs to
    completion. *)
Definition deliver `{QtText} (w : World) (s : Signal)
    (st : BroadcastEnumerator) : Outcome BroadcastEnumerator :=
  match s with
  | BroadcastTimerTimeout => Returns (onBroadcastTimeout w st)
  | ExpiryTimerTimeout => onExpiryTimeout w st
  | SocketReadyRead arrived => Returns (onReadyRead (arrive arrived st))
  | SettingsChanged keys => onSettingsChanged w keys st
  end.

(** Signals delivered one after the other, each in the surroundings of
    its time. *)
Fixpoint run `{QtText} (steps : list (World * Signal))
    (st : BroadcastEnumerator) : Outcome BroadcastEnumerator :=
  match steps with
  | [] => Returns st
  | (w, s) :: steps => st ← deliver w s st; run steps st
  end.

(** The object from its construction on. *)
Definition life `{QtText} (w0 : World) (steps : list (World * Signal))
    : Outcome BroadcastEnumerator :=
  st ← constructor w0; run steps st.

(** The removal signals among a list of effects. *)
Definition isRemoved (e : Effect) : bool :=
  match e with DeviceRemoved _ => true | _ => false end.

Definition isUpdated (e : Effect) : bool :=
  match e with DeviceUpdated _ _ => true | _ => false end.

(** The reaction to a changed expiry when the sweep finds nothing to
    remove: the three timer calls. *)
Definition expiryRestarted (w : World) (st : BroadcastEnumerator)
    : BroadcastEnumerator :=
  timerStart ExpiryTimer
    (timerSetInterval ExpiryTimer (settingsValue w BroadcastExpiry)
       (timerStop ExpiryTimer st)).

(** What holds of the object at every point of its life. *)
Record Settled (st : BroadcastEnumerator) : Prop := {
  settled_devices : mDevices st = [];
  settled_removed : List.filter isRemoved (effects st) = [];
  settled_broadcast : isActive (mBroadcastTimer st) = true;
  settled_expiry : isActive (mExpiryTimer st) = true;
  settled_port : 0 ≤ localPort (mSocket st) < 65536;
  settled_unbound :
    state (mSocket st) = UnconnectedState →
    localPort (mSocket st) = 0 ∧ pendingDatagrams (mSocket st) = []
}.

(** ** Two peers for the examples *)

Module Peers.

(** A packet that names no uuid. *)
Definition anonymous : QByteArray :=
  String.list_byte_of_string
    ("{" +:+ Lab.quoted "name" +:+ ":" +:+ Lab.quoted "Carol" +:+ "}").

(** The library of [Lab], which also knows the packet above. *)
Definition text : QtText := {|
  toJson := toJson (QtText := Lab.text);
  fromJson data :=
    if decide (String.string_of_list_byte data
               = String.string_of_list_byte anonymous)
    then ObjectDocument (<["name" := JString "Carol"]> ∅)
    else fromJson (QtText := Lab.text) data;
  QHostAddress_toString := QHostAddress_toString (QtText := Lab.text);
  QString_number := QString_number (QtText := Lab.text)
|}.

(** Alice's host: one interface on 192.168.1.0/24; every send and every
    bind succeeds.  The port setting is a parameter. *)
Definition alice (port : Z) : World := {|
  allInterfaces :=
    [ {| flags := IsUp + IsRunning + CanBroadcast + CanMulticast;
         addressEntries :=
           [Lab.entry4 (Lab.ipv4 192 168 1 20) (Lab.ipv4 192 168 1 255)] |} ];
  deviceUuid := "A1";
  deviceName := "Alice";
  settingsValue k :=
    if decide (k = BroadcastInterval) then 5000
    else if decide (k = BroadcastExpiry) then 30000
    else if decide (k = BroadcastPort) then port
    else 0;
  currentMSecsSinceEpoch := 1000;
  sendAccepted _ _ := true;
  bindError _ := None
|}.

(** A host with nothing to broadcast on: loopback, and an interface
    that is up but has no broadcast address. *)
Definition offline : World := {|
  allInterfaces :=
    [ {| flags := IsUp + IsRunning + IsLoopBack;
         addressEntries :=
           [Lab.entry4 (Lab.ipv4 127 0 0 1) (Lab.ipv4 127 255 255 255)] |};
      {| flags := IsUp + CanBroadcast;
         addressEntries := [Lab.entry4 (IPv6 1) NullAddress] |} ];
  deviceUuid := "A1";
  deviceName := "Alice";
  settingsValue _ := 0;
  currentMSecsSinceEpoch := 1000;
  sendAccepted _ _ := true;
  bindError _ := None
|}.

End Peers.

(** ** The tick on a socket in any state *)

(** What [QUdpSocket::writeDatagram] does first to a socket that is not
    bound: it binds it to a port of the operating system's choice,
    [chosen]. *)
Definition implicitBind (chosen : Z) (s : QUdpSocket) : QUdpSocket :=
  match state s with
  | BoundState => s
  | UnconnectedState =>
      {| state := BoundState; localPort := to_quint16 chosen;
         pendingDatagrams := pendingDatagrams s;
         errorString := errorString s |}
  end.

(** [mSocket.writeDatagram(data, address, port)] on a socket in any
    state.  The port argument has been read before the call. *)
Definition writeDatagramAny (w : World) (chosen : Z) (data : QByteArray)
    (address : QHostAddress) (port : Z) (st : BroadcastEnumerator)
    : BroadcastEnumerator :=
  writeDatagram w data address port
    (set_mSocket (implicitBind chosen (mSocket st)) st).

(** The last [foreach] of [onBroadcastTimeout], each turn reading
    [mSocket.localPort()] and then writing. *)
Definition broadcastPacketAny (w : World) (chosen : Z) (data : QByteArray)
    (addresses : list QHostAddress) (st : BroadcastEnumerator)
    : BroadcastEnumerator :=
  foldl (λ st address,
           writeDatagramAny w chosen data address (localPort (mSocket st)) st)
        st addresses.

(** [onBroadcastTimeout] on a socket in any state. *)
Definition onBroadcastTimeoutAny `{QtText} (w : World) (chosen : Z)
    (st : BroadcastEnumerator) : BroadcastEnumerator :=
  let addresses := broadcastAddresses w in
  let data := packet w in
  broadcastPacketAny w chosen data (elements addresses) st.

(** * Properties *)

Section Facts.
Context `{QtText}.

(** ** The set of broadcast addresses *)

Lemma isNull_false a : isNull a = false ↔ a ≠ NullAddress.
Proof. by destruct a. Qed.

Lemma elem_of_insertBroadcast a addresses entries :
  a ∈ foldl insertBroadcast addresses entries ↔
  a ∈ addresses ∨
  (a ≠ NullAddress ∧ ∃ entry, entry ∈ entries ∧ broadcast entry = a).
Proof.
  revert addresses.
  induction entries as [|e entries IH]; intros addresses; cbn.
  - split; [by left|]. intros [?|(_ & e & He & _)]; [done|].
    by apply elem_of_nil in He.
  - rewrite IH. unfold insertBroadcast.
    destruct (isNull (broadcast e)) eqn:Hnull.
    + split.
      * intros [?|(? & e' & ? & ?)]; [by left|right].
        split; [done|]. exists e'. by rewrite elem_of_cons; auto.
      * intros [?|(Ha & e' & He' & Hb)]; [by left|].
        apply elem_of_cons in He' as [->|He'].
        -- apply isNull_false in Ha. congruence.
        -- right. eauto.
    + apply isNull_false in Hnull. rewrite elem_of_union, elem_of_singleton.
      split.
      * intros [[->|?]|(? & e' & ? & ?)]; [right|by left|right].
        -- split; [done|]. exists e. by rewrite elem_of_cons; auto.
        -- split; [done|]. exists e'. by rewrite elem_of_cons; auto.
      * intros [?|(Ha & e' & He' & Hb)]; [by left; right|].
        apply elem_of_cons in He' as [->|He']; [by left; left|].
        right. eauto.
Qed.

Lemma elem_of_insertInterface a addresses interfaces :
  a ∈ foldl insertInterface addresses interfaces ↔
  a ∈ addresses ∨
  (a ≠ NullAddress ∧
   ∃ interface entry,
     interface ∈ interfaces ∧ broadcastCapable interface ∧
     entry ∈ addressEntries interface ∧ broadcast entry = a).
Proof.
  revert addresses.
  induction interfaces as [|i interfaces IH]; intros addresses; cbn.
  - split; [by left|]. intros [?|(_ & i & e & Hi & _)]; [done|].
    by apply elem_of_nil in Hi.
  - rewrite IH. unfold insertInterface, broadcastCapable.
    destruct (Z.eqb_spec (Z.land (flags i) CanBroadcast) 0) as [Hz|Hz].
    + split.
      * intros [?|(? & i' & e & ? & ? & ? & ?)]; [by left|right].
        split; [done|]. exists i', e. by rewrite elem_of_cons; auto.
      * intros [?|(Ha & i' & e & Hi' & Hc & He & Hb)]; [by left|].
        apply elem_of_cons in Hi' as [->|Hi']; [done|].
        right. split; [done|]. by exists i', e.
    + rewrite elem_of_insertBroadcast. split.
      * intros [[?|(? & e & ? & ?)]|(? & i' & e & ? & ? & ? & ?)];
          [by left|right..]; (split; [done|]).
        -- exists i, e. by rewrite elem_of_cons; auto.
        -- exists i', e. by rewrite elem_of_cons; auto.
      * intros [?|(Ha & i' & e & Hi' & Hc & He & Hb)]; [by left; left|].
        apply elem_of_cons in Hi' as [->|Hi'].
        -- left; right. eauto.
        -- right. split; [done|]. by exists i', e.
Qed.

(** An address is in the set exactly when it is the non-null broadcast
    address of an entry of a broadcast-capable interface. *)
Lemma elem_of_broadcastAddresses w a :
  a ∈ broadcastAddresses w ↔
  a ≠ NullAddress ∧
  ∃ interface entry,
    interface ∈ allInterfaces w ∧ broadcastCapable interface ∧
    entry ∈ addressEntries interface ∧ broadcast entry = a.
Proof.
  unfold broadcastAddresses. rewrite elem_of_insertInterface.
  split; [|by right]. by intros [?%not_elem_of_empty|?].
Qed.

(** ** The sending loop *)

Lemma broadcastPacket_eq w addresses st :
  broadcastPacket w (packet w) addresses st =
  {| mBroadcastTimer := mBroadcastTimer st;
     mExpiryTimer := mExpiryTimer st;
     mSocket := mSocket st;
     mDevices := mDevices st;
     effects := effects st
                ++ map (announce w (localPort (mSocket st))) addresses |}.
Proof.
  unfold broadcastPacket. revert st.
  induction addresses as [|a addresses IH]; intros st; cbn.
  - rewrite app_nil_r. by destruct st.
  - rewrite IH. cbn. by rewrite <- app_assoc.
Qed.

Lemma onBroadcastTimeout_eq w st :
  onBroadcastTimeout w st =
  {| mBroadcastTimer := mBroadcastTimer st;
     mExpiryTimer := mExpiryTimer st;
     mSocket := mSocket st;
     mDevices := mDevices st;
     effects := effects st
                ++ map (announce w (localPort (mSocket st)))
                       (elements (broadcastAddresses w)) |}.
Proof. apply broadcastPacket_eq. Qed.

(** ** The expiry sweep *)

Lemma expiryLoop_eq ms expiry i st :
  expiryLoop ms expiry i st =
  if decide (i = devices_end (mDevices st)) then Returns st
  else match expiryStep ms expiry i st with
       | UndefinedBehaviour => UndefinedBehaviour
       | Returns (i', st') => expiryLoop ms expiry i' st'
       end.
Proof.
  simp expiryLoop.
  destruct (decide (i = devices_end (mDevices st))); [done|].
  cbn. unfold inspect.
  by destruct (expiryStep ms expiry i st) as [[i' st']|].
Qed.

(** A turn of the loop on a record that has not expired moves on and
    changes nothing. *)
Lemma expiryStep_kept w n r st :
  mDevices st !! n = Some r → ¬ expired w r →
  expiryStep (currentMSecsSinceEpoch w) (settingsValue w BroadcastExpiry)
             (Position n) st
  = Returns (Position (S n), st).
Proof.
  intros Hn Hr. unfold expiryStep, value, iterator_entry. rewrite Hn. cbn.
  rewrite decide_False by done. cbn.
  apply lookup_lt_Some in Hn. by rewrite decide_True.
Qed.

(** A turn of the loop on an expired record erases it and then reads
    the key through the iterator that pointed at it. *)
Lemma expiryStep_expired w n r st :
  mDevices st !! n = Some r → expired w r →
  expiryStep (currentMSecsSinceEpoch w) (settingsValue w BroadcastExpiry)
             (Position n) st
  = UndefinedBehaviour.
Proof.
  intros Hn Hr. unfold expiryStep, value, iterator_entry. rewrite Hn. cbn.
  rewrite decide_True by done. cbn.
  apply lookup_lt_Some in Hn. by rewrite decide_True.
Qed.

Lemma expiryLoop_kept w st k : ∀ n,
  length (mDevices st) = (n + k)%nat →
  Forall (λ r, ¬ expired w r) (drop n (mDevices st)) →
  expiryLoop (currentMSecsSinceEpoch w) (settingsValue w BroadcastExpiry)
             (Position n) st
  = Returns st.
Proof.
  induction k as [|k IH]; intros n Hlen Hall; rewrite expiryLoop_eq.
  - rewrite decide_True; [done|]. unfold devices_end. f_equal. lia.
  - rewrite decide_False by (unfold devices_end; intros [= ->]; lia).
    destruct (mDevices st !! n) as [r|] eqn:Hn.
    2:{ apply lookup_ge_None in Hn. lia. }
    rewrite (drop_S _ _ _ Hn) in Hall. inversion_clear Hall as [|?? Hr Hrest].
    rewrite (expiryStep_kept _ _ _ _ Hn Hr). apply IH; [lia|done].
Qed.

Lemma expiryLoop_expired w st k : ∀ n,
  length (mDevices st) = (n + k)%nat →
  Exists (expired w) (drop n (mDevices st)) →
  expiryLoop (currentMSecsSinceEpoch w) (settingsValue w BroadcastExpiry)
             (Position n) st
  = UndefinedBehaviour.
Proof.
  induction k as [|k IH]; intros n Hlen Hex.
  - rewrite drop_ge in Hex by lia. by apply Exists_nil in Hex.
  - rewrite expiryLoop_eq.
    rewrite decide_False by (unfold devices_end; intros [= ->]; lia).
    destruct (mDevices st !! n) as [r|] eqn:Hn.
    2:{ apply lookup_ge_None in Hn. lia. }
    rewrite (drop_S _ _ _ Hn) in Hex.
    destruct (decide (expired w r)) as [Hr|Hr].
    + by rewrite (expiryStep_expired _ _ _ _ Hn Hr).
    + rewrite (expiryStep_kept _ _ _ _ Hn Hr).
      apply Exists_cons in Hex as [?|Hex]; [done|].
      apply IH; [lia|done].
Qed.

(** A sweep over a table without expired records returns and leaves
    the object as it was. *)
Lemma onExpiryTimeout_kept w st :
  Forall (λ r, ¬ expired w r) (mDevices st) →
  onExpiryTimeout w st = Returns st.
Proof.
  intros Hall. unfold onExpiryTimeout, devices_begin.
  by apply (expiryLoop_kept w st (length (mDevices st)) 0%nat).
Qed.

(** A sweep over a table with an expired record has no defined
    result. *)
Lemma onExpiryTimeout_expired w st :
  Exists (expired w) (mDevices st) →
  onExpiryTimeout w st = UndefinedBehaviour.
Proof.
  intros Hex. unfold onExpiryTimeout, devices_begin.
  by apply (expiryLoop_expired w st (length (mDevices st)) 0%nat).
Qed.

(** ** The receive loop *)

Lemma onReadyRead_eq st :
  onReadyRead st =
  if hasPendingDatagrams (mSocket st) then
    onReadyRead (perform (deviceUpdate (fst (readDatagram (mSocket st))))
                         (set_mSocket (snd (readDatagram (mSocket st))) st))
  else st.
Proof.
  rewrite onReadyRead_unfold_eq. unfold onReadyRead_unfold, inspect.
  cut (∀ b (e : hasPendingDatagrams (mSocket st) = b),
         onReadyRead_unfold_clause_1 st (exist _ b e) =
         if b then
           onReadyRead
             (perform (deviceUpdate (fst (readDatagram (mSocket st))))
                      (set_mSocket (snd (readDatagram (mSocket st))) st))
         else st); [by intros ->|].
  intros [] e; cbn; [|done].
  by destruct (readDatagram (mSocket st)).
Qed.

Lemma onReadyRead_unbound st :
  state (mSocket st) = UnconnectedState → onReadyRead st = st.
Proof.
  intros Hs. rewrite onReadyRead_eq. unfold hasPendingDatagrams.
  by rewrite Hs.
Qed.

Lemma onReadyRead_bound pending : ∀ st,
  state (mSocket st) = BoundState →
  pendingDatagrams (mSocket st) = pending →
  onReadyRead st =
  {| mBroadcastTimer := mBroadcastTimer st;
     mExpiryTimer := mExpiryTimer st;
     mSocket := {| state := BoundState;
                   localPort := localPort (mSocket st);
                   pendingDatagrams := [];
                   errorString := errorString (mSocket st) |};
     mDevices := mDevices st;
     effects := effects st ++ map deviceUpdate pending |}.
Proof.
  induction pending as [|d pending IH]; intros st Hs Hp;
    rewrite onReadyRead_eq; unfold hasPendingDatagrams, readDatagram;
    rewrite Hs, Hp.
  - cbn. rewrite app_nil_r. destruct st as [? ? [] ? ?]. cbn in *.
    by subst.
  - cbn. rewrite IH by done. cbn. by rewrite <- app_assoc.
Qed.

(** The receive loop never writes the peer table. *)
Lemma onReadyRead_mDevices st : mDevices (onReadyRead st) = mDevices st.
Proof.
  destruct (state (mSocket st)) eqn:Hs.
  - by rewrite onReadyRead_unbound.
  - by rewrite (onReadyRead_bound _ st Hs eq_refl).
Qed.

(** ** The receive loop, datagram by datagram *)

(** The update the loop emits for the datagram at position [i] of
    the queue. *)
Lemma onReadyRead_update st i d :
  state (mSocket st) = BoundState →
  pendingDatagrams (mSocket st) !! i = Some d →
  effects (onReadyRead st) !! (length (effects st) + i)%nat
  = Some (deviceUpdate d).
Proof.
  intros Hs Hd. rewrite (onReadyRead_bound _ st Hs eq_refl). cbn.
  rewrite lookup_app_r by lia.
  replace (length (effects st) + i - length (effects st))%nat with i by lia.
  by rewrite list_lookup_fmap, Hd.
Qed.

(** ** The reactions to changed settings *)

Lemma written_app es1 es2 : written (es1 ++ es2) = written es1 ++ written es2.
Proof. apply List.filter_app. Qed.


Lemma contains_true keys k : k ∈ keys → contains keys k = true.
Proof. intros ?. by apply bool_decide_eq_true. Qed.

(** The reaction to a changed interval, spelled out. *)
Lemma intervalChanged_eq w st :
  intervalChanged w st =
  {| mBroadcastTimer := {| isActive := true;
                           interval := settingsValue w BroadcastInterval |};
     mExpiryTimer := mExpiryTimer st;
     mSocket := mSocket st;
     mDevices := mDevices st;
     effects :=
       effects st
       ++ [TimerStop BroadcastTimer;
           TimerSetInterval BroadcastTimer (settingsValue w BroadcastInterval)]
       ++ map (announce w (localPort (mSocket st)))
              (elements (broadcastAddresses w))
       ++ [TimerStart BroadcastTimer] |}.
Proof.
  unfold intervalChanged. rewrite onBroadcastTimeout_eq.
  unfold timerStart, timerSetInterval, timerStop, perform. cbn.
  f_equal. by rewrite <- !app_assoc.
Qed.

(** The reaction to a changed expiry on a table without expired
    records. *)
Lemma expiryChanged_kept w st :
  Forall (λ r, ¬ expired w r) (mDevices st) →
  expiryChanged w st =
  Returns
    {| mBroadcastTimer := mBroadcastTimer st;
       mExpiryTimer := {| isActive := true;
                          interval := settingsValue w BroadcastExpiry |};
       mSocket := mSocket st;
       mDevices := mDevices st;
       effects :=
         effects st
         ++ [TimerStop ExpiryTimer;
             TimerSetInterval ExpiryTimer (settingsValue w BroadcastExpiry);
             TimerStart ExpiryTimer] |}.
Proof.
  intros Hall. unfold expiryChanged.
  rewrite onExpiryTimeout_kept by done.
  unfold timerStart, timerSetInterval, timerStop, perform. cbn.
  do 2 f_equal. by rewrite <- !app_assoc.
Qed.

(** The reaction to a changed port when the bind is refused. *)
Lemma portChanged_refused w st e :
  bindError w (to_quint16 (settingsValue w BroadcastPort)) = Some e →
  portChanged w st =
  {| mBroadcastTimer := mBroadcastTimer st;
     mExpiryTimer := mExpiryTimer st;
     mSocket := {| state := UnconnectedState; localPort := 0;
                   pendingDatagrams := []; errorString := e |};
     mDevices := mDevices st;
     effects :=
       effects st
       ++ [SocketClose;
           SocketBind AnyAddress
                      (to_quint16 (settingsValue w BroadcastPort)) false;
           Log {| msgType := Error; msgTag := MessageTag; msgBody := e |}] |}.
Proof.
  intros He. unfold portChanged, bind. cbn. rewrite He. cbn.
  unfold perform. cbn. f_equal. by rewrite <- !app_assoc.
Qed.

(** The reaction to a changed port when the bind is granted. *)
Lemma portChanged_granted w st :
  bindError w (to_quint16 (settingsValue w BroadcastPort)) = None →
  portChanged w st =
  {| mBroadcastTimer := mBroadcastTimer st;
     mExpiryTimer := mExpiryTimer st;
     mSocket := {| state := BoundState;
                   localPort := to_quint16 (settingsValue w BroadcastPort);
                   pendingDatagrams := [];
                   errorString := errorString (mSocket st) |};
     mDevices := mDevices st;
     effects :=
       effects st
       ++ [SocketClose;
           SocketBind AnyAddress
                      (to_quint16 (settingsValue w BroadcastPort)) true] |}.
Proof.
  intros He. unfold portChanged, bind. cbn. rewrite He. cbn.
  unfold perform. cbn. f_equal. by rewrite <- !app_assoc.
Qed.

Lemma written_portChanged w st :
  written (effects (portChanged w st)) = written (effects st).
Proof.
  destruct (bindError w (to_quint16 (settingsValue w BroadcastPort)))
    as [e|] eqn:He.
  - rewrite (portChanged_refused _ _ _ He). cbn.
    rewrite written_app. cbn. by rewrite app_nil_r.
  - rewrite (portChanged_granted _ _ He). cbn.
    rewrite written_app. cbn. by rewrite app_nil_r.
Qed.



(** What the first two reactions of a notification leave, on a table
    without expired records. *)
Lemma timers_reconfigured w keys st :
  Forall (λ r, ¬ expired w r) (mDevices st) →
  ∃ st1,
    (st ← (if contains keys BroadcastInterval
           then Returns (intervalChanged w st) else Returns st);
     if contains keys BroadcastExpiry
     then expiryChanged w st else Returns st) = Returns st1 ∧
    mSocket st1 = mSocket st ∧ mDevices st1 = mDevices st ∧
    ∃ rest,
      effects st1 =
        (if contains keys BroadcastInterval
         then effects (intervalChanged w st) else effects st) ++ rest ∧
      written rest = [] ∧
      mBroadcastTimer st1 =
        (if contains keys BroadcastInterval
         then mBroadcastTimer (intervalChanged w st)
         else mBroadcastTimer st).
Proof.
  intros Hall.
  assert (mSocket (intervalChanged w st) = mSocket st
          ∧ mDevices (intervalChanged w st) = mDevices st) as [Hs Hd]
    by (by rewrite intervalChanged_eq).
  generalize dependent (intervalChanged w st). intros sti Hs Hd.
  destruct (contains keys BroadcastInterval); cbn;
    destruct (contains keys BroadcastExpiry).
  - rewrite expiryChanged_kept by (by rewrite Hd).
    eexists. split; [done|]. cbn.
    do 2 (split; [done|]). by eexists.
  - eexists. split; [done|].
    do 2 (split; [done|]). exists []. by rewrite app_nil_r.
  - rewrite expiryChanged_kept by done.
    eexists. split; [done|]. cbn. do 2 (split; [done|]). by eexists.
  - eexists. split; [done|]. do 2 (split; [done|]).
    exists []. by rewrite app_nil_r.
Qed.

(** The whole notification, given what its first two reactions
    leave. *)
Lemma onSettingsChanged_after w keys st st1 :
  (st ← (if contains keys BroadcastInterval
         then Returns (intervalChanged w st) else Returns st);
   if contains keys BroadcastExpiry
   then expiryChanged w st else Returns st) = Returns st1 →
  onSettingsChanged w keys st =
  Returns (if contains keys BroadcastPort then portChanged w st1 else st1).
Proof.
  unfold onSettingsChanged.
  destruct (contains keys BroadcastInterval),
           (contains keys BroadcastExpiry); cbn; intros Hst1;
    first [injection Hst1 as <- | rewrite Hst1]; cbn;
    by destruct (contains keys BroadcastPort).
Qed.

End Facts.

(** ** The peer table over the life of the object *)

Section PeerTable.
Context `{QtText}.

Lemma onBroadcastTimeout_mDevices w st :
  mDevices (onBroadcastTimeout w st) = mDevices st.
Proof. by rewrite onBroadcastTimeout_eq. Qed.

Lemma onExpiryTimeout_empty w st :
  mDevices st = [] → onExpiryTimeout w st = Returns st.
Proof. intros Hd. apply onExpiryTimeout_kept. rewrite Hd. constructor. Qed.

(** No slot puts a record into an empty peer table, and on an empty
    peer table every slot returns. *)
Lemma onSettingsChanged_empty w keys st :
  mDevices st = [] →
  ∃ st', onSettingsChanged w keys st = Returns st' ∧ mDevices st' = [].
Proof.
  intros Hd.
  destruct (timers_reconfigured w keys st) as (st1 & Hst1 & _ & Hd1 & _).
  { rewrite Hd. constructor. }
  eexists. split; [by apply onSettingsChanged_after|].
  destruct (contains keys BroadcastPort); [|congruence].
  destruct (bindError w (to_quint16 (settingsValue w BroadcastPort)))
    as [e|] eqn:He.
  - rewrite (portChanged_refused _ _ _ He). cbn. congruence.
  - rewrite (portChanged_granted _ _ He). cbn. congruence.
Qed.

Lemma constructor_empty w :
  ∃ st, constructor w = Returns st ∧ mDevices st = [].
Proof. by apply onSettingsChanged_empty. Qed.

End PeerTable.

(** * The claims *)

Section Broadcast.
Context `{QtText}.



End Broadcast.


Section Receive.
Context `{QtText}.

(** C9.  On a readiness signal with [n] datagrams waiting, one run of
    the loop reads all of them, leaving none, and emits exactly one
    update per datagram, in the order read. *)
Theorem drain_emits_one_update_per_datagram st n :
  state (mSocket st) = BoundState →
  length (pendingDatagrams (mSocket st)) = n →
  ∃ updates,
    effects (onReadyRead st) = effects st ++ updates ∧
    length updates = n ∧
    (∀ i d, pendingDatagrams (mSocket st) !! i = Some d →
            updates !! i = Some (deviceUpdate d) ∧
            ∃ uuid properties,
              deviceUpdate d = DeviceUpdated uuid properties) ∧
    pendingDatagrams (mSocket (onReadyRead st)) = [] ∧
    hasPendingDatagrams (mSocket (onReadyRead st)) = false.
Proof.
  intros Hs Hn. exists (map deviceUpdate (pendingDatagrams (mSocket st))).
  rewrite (onReadyRead_bound _ st Hs eq_refl). cbn.
  split; [done|]. split; [by rewrite length_map|]. split; [|done].
  intros i d Hd. split.
  - by rewrite list_lookup_fmap, Hd.
  - unfold deviceUpdate, take. eauto.
Qed.

(** C6.  A datagram whose payload decodes as an object with a uuid
    field, whatever else it holds, is reported with the text of that
    uuid as the id (the string itself when the field is a string) and
    with every decoded field but the uuid as attributes, except that
    [addresses] is the one-element list of the sender's address as the
    socket saw it, whether or not the payload had such a field. *)
Theorem decoded_fields_reach_the_update st i d o v :
  state (mSocket st) = BoundState →
  pendingDatagrams (mSocket st) !! i = Some d →
  fromJson (payload d) = ObjectDocument o →
  o !! "uuid" = Some v →
  ∃ properties,
    effects (onReadyRead st) !! (length (effects st) + i)%nat
    = Some (DeviceUpdated (QVariant_toString (toVariant v)) properties) ∧
    (∀ s, v = JString s → QVariant_toString (toVariant v) = s) ∧
    properties !! "uuid" = None ∧
    properties !! "addresses"
    = Some (VStringList [QHostAddress_toString (sender d)]) ∧
    (∀ k, k ≠ "uuid" → k ≠ "addresses" →
          properties !! k = toVariant <$> o !! k).
Proof.
  intros Hs Hd Ho Hv.
  exists (delete "uuid"
            (<["addresses" :=
                 VStringList [QHostAddress_toString (sender d)]]>
               (toVariantMap o))).
  split; [|split; [|split; [|split]]].
  - rewrite (onReadyRead_update _ _ _ Hs Hd).
    unfold deviceUpdate, take. rewrite Ho. cbn.
    rewrite lookup_insert_ne by done.
    unfold toVariantMap. by rewrite lookup_fmap, Hv.
  - by intros s ->.
  - apply lookup_delete_eq.
  - rewrite lookup_delete_ne by done. apply lookup_insert_eq.
  - intros k Hk1 Hk2. rewrite lookup_delete_ne by done.
    rewrite lookup_insert_ne by done. apply lookup_fmap.
Qed.

(** C7.  A datagram whose payload does not decode as an object is not
    dropped: it is reported with the empty string as the id and with
    the injected [addresses] field as its only attribute. *)
Theorem undecodable_payload_is_still_reported st i d :
  state (mSocket st) = BoundState →
  pendingDatagrams (mSocket st) !! i = Some d →
  (∀ o, fromJson (payload d) ≠ ObjectDocument o) →
  effects (onReadyRead st) !! (length (effects st) + i)%nat
  = Some (DeviceUpdated EmptyString
            {[ "addresses" :=
                 VStringList [QHostAddress_toString (sender d)] ]}).
Proof.
  intros Hs Hd Ho. rewrite (onReadyRead_update _ _ _ Hs Hd).
  unfold deviceUpdate, take.
  assert (object (fromJson (payload d)) = ∅) as ->.
  { destruct (fromJson (payload d)) as [| |o]; [done..|]. by destruct (Ho o). }
  unfold toVariantMap. rewrite fmap_empty. cbn.
  rewrite lookup_insert_ne by done. rewrite lookup_empty. cbn.
  rewrite delete_insert_ne by done. by rewrite delete_empty.
Qed.

End Receive.

(** Three datagrams waiting: an announcement, a packet of a newer peer,
    and noise. *)
Lemma drain_emits_one_update_per_datagram_witness :
  let st := Lab.running
              [ {| payload := Lab.announcement "A1" "Alice";
                   sender := Lab.ipv4 192 168 1 20 |};
                {| payload := Lab.newerPeer;
                   sender := Lab.ipv4 192 168 1 21 |};
                {| payload := Lab.noise;
                   sender := Lab.ipv4 192 168 1 22 |} ] [] in
  ∃ updates,
    effects (onReadyRead (H := Lab.text) st) = effects st ++ updates ∧
    length updates = 3%nat ∧
    (∀ i d, pendingDatagrams (mSocket st) !! i = Some d →
            updates !! i = Some (deviceUpdate (H := Lab.text) d) ∧
            ∃ uuid properties,
              deviceUpdate (H := Lab.text) d = DeviceUpdated uuid properties) ∧
    pendingDatagrams (mSocket (onReadyRead (H := Lab.text) st)) = [] ∧
    hasPendingDatagrams (mSocket (onReadyRead (H := Lab.text) st)) = false.
Proof.
  apply (drain_emits_one_update_per_datagram (H := Lab.text));
    vm_compute; reflexivity.
Defined.

(** The packet of the newer peer, which claims an address of its own. *)
Lemma decoded_fields_reach_the_update_witness :
  let d := {| payload := Lab.newerPeer; sender := Lab.ipv4 192 168 1 21 |} in
  let st := Lab.running [d] [] in
  ∃ properties,
    effects (onReadyRead (H := Lab.text) st) !! (length (effects st) + 0)%nat
    = Some (DeviceUpdated "B2" properties) ∧
    (∀ s, JString "B2" = JString s →
          QVariant_toString (H := Lab.text) (toVariant (JString "B2")) = s) ∧
    properties !! "uuid" = None ∧
    properties !! "addresses" = Some (VStringList ["192.168.1.21"]) ∧
    (∀ k, k ≠ "uuid" → k ≠ "addresses" →
          properties !! k = toVariant <$> Lab.newerPeerObject !! k).
Proof.
  apply (decoded_fields_reach_the_update (H := Lab.text)
           (Lab.running [ {| payload := Lab.newerPeer;
                             sender := Lab.ipv4 192 168 1 21 |} ] [])
           0%nat
           {| payload := Lab.newerPeer; sender := Lab.ipv4 192 168 1 21 |}
           Lab.newerPeerObject (JString "B2"));
    vm_compute; reflexivity.
Defined.

(** Noise from 192.168.1.22. *)
Lemma undecodable_payload_is_still_reported_witness :
  let d := {| payload := Lab.noise; sender := Lab.ipv4 192 168 1 22 |} in
  let st := Lab.running [d] [] in
  effects (onReadyRead (H := Lab.text) st) !! (length (effects st) + 0)%nat
  = Some (DeviceUpdated EmptyString
            {[ "addresses" := VStringList ["192.168.1.22"] ]}).
Proof.
  apply (undecodable_payload_is_still_reported (H := Lab.text)
           (Lab.running [ {| payload := Lab.noise;
                             sender := Lab.ipv4 192 168 1 22 |} ] [])
           0%nat
           {| payload := Lab.noise; sender := Lab.ipv4 192 168 1 22 |}).
  - reflexivity.
  - reflexivity.
  - intros o. vm_compute. discriminate.
Defined.

(** C1, on the code.  An announcement of peer A1 is waiting and the
    peer table is empty.  The receive loop emits the update for A1 and
    returns with the peer table still empty: no record for A1 is
    created, and no timestamp is taken. *)
Theorem announcement_leaves_peer_table_empty :
  let st := onReadyRead (H := Lab.text)
              (Lab.running [ {| payload := Lab.announcement "A1" "Alice";
                                sender := Lab.ipv4 192 168 1 20 |} ] []) in
  effects st = [ DeviceUpdated "A1"
                   (<["addresses" := VStringList ["192.168.1.20"]]>
                    {[ "name" := VString "Alice" ]}) ] ∧
  mDevices st = [] ∧
  ∀ lastSeenAt, ("A1", lastSeenAt) ∉ mDevices st.
Proof.
  assert (mDevices
            (onReadyRead (H := Lab.text)
               (Lab.running [ {| payload := Lab.announcement "A1" "Alice";
                                 sender := Lab.ipv4 192 168 1 20 |} ] []))
          = []) as Hempty by apply (onReadyRead_mDevices (H := Lab.text)).
  cbv zeta. rewrite Hempty. split; [|split; [done|]].
  - vm_compute. reflexivity.
  - intros t Ht. by apply elem_of_nil in Ht.
Qed.

(** C2, on the code.  The peer table holds A1, last seen at 0, and the
    sweep runs at 40000 with an expiry of 30000.  The loop erases the
    record and then asks the iterator that pointed at it for the key
    to put in the removal signal: the sweep has no defined result.
    With the record last seen at 39000 the same sweep returns and
    changes nothing. *)
Theorem sweep_over_expired_record_is_undefined :
  onExpiryTimeout (Lab.world 40000 40816) (Lab.running [] [("A1", 0)])
  = UndefinedBehaviour ∧
  onExpiryTimeout (Lab.world 40000 40816) (Lab.running [] [("A1", 39000)])
  = Returns (Lab.running [] [("A1", 39000)]).
Proof. split; vm_compute; reflexivity. Qed.

Section Reconfiguration.
Context `{QtText}.



End Reconfiguration.




(** * Further properties of the slots *)

Section Sweep.
Context `{QtText}.

(** X1.  A sweep over a peer table none of whose records has expired
    returns, removes nothing and signals nothing: the object is as it
    was.  This covers the empty table and records seen exactly the
    expiry time ago. *)
Theorem sweep_keeps_every_fresh_record w st :
  Forall (λ r, ¬ wrap64 (currentMSecsSinceEpoch w - r.2)
                 > settingsValue w BroadcastExpiry) (mDevices st) →
  onExpiryTimeout w st = Returns st.
Proof. apply onExpiryTimeout_kept. Qed.

(** X2.  A sweep over a peer table that holds an expired record, at
    whatever position and among whatever other records, has no defined
    result: the turn of the loop that meets the first such record
    erases it and then reads its iterator. *)
Theorem sweep_meeting_an_expired_record_is_undefined w st k t :
  (k, t) ∈ mDevices st →
  wrap64 (currentMSecsSinceEpoch w - t) > settingsValue w BroadcastExpiry →
  onExpiryTimeout w st = UndefinedBehaviour.
Proof.
  intros Hin Ht. apply onExpiryTimeout_expired.
  apply Exists_exists. by exists (k, t).
Qed.

Lemma wrap64_small z : - 2 ^ 63 ≤ z < 2 ^ 63 → wrap64 z = z.
Proof. intros Hz. unfold wrap64. rewrite Z.mod_small; lia. Qed.

(** X3.  With the clock and the timestamps from -2^62 up to 2^62, the
    64-bit subtraction does not wrap, and a sweep changes nothing
    when, for every record, now - lastSeen <= expiry: in particular a
    record stamped later than now is kept whenever the expiry setting
    is not negative. *)
Theorem sweep_keeps_records_within_expiry w st :
  - 2 ^ 62 ≤ currentMSecsSinceEpoch w < 2 ^ 62 →
  Forall (λ r, - 2 ^ 62 ≤ r.2 < 2 ^ 62 ∧
               currentMSecsSinceEpoch w - r.2
               ≤ settingsValue w BroadcastExpiry) (mDevices st) →
  onExpiryTimeout w st = Returns st.
Proof.
  intros Hnow Hall. apply onExpiryTimeout_kept.
  eapply Forall_impl; [exact Hall|]. intros [k t] [Ht Hle].
  unfold expired. cbn [fst snd] in *.
  assert (2 ^ 63 = 2 * 2 ^ 62 ∧ 0 < 2 ^ 62) as [Hpow Hpos] by done.
  rewrite wrap64_small; lia.
Qed.

End Sweep.

Lemma sweep_keeps_every_fresh_record_witness :
  onExpiryTimeout (Lab.world 40000 40816)
                  (Lab.running [] [("A1", 10000); ("B2", 39000)])
  = Returns (Lab.running [] [("A1", 10000); ("B2", 39000)]).
Proof.
  apply sweep_keeps_every_fresh_record.
  repeat constructor; vm_compute; discriminate.
Defined.

Lemma sweep_meeting_an_expired_record_is_undefined_witness :
  onExpiryTimeout (Lab.world 40000 40816)
                  (Lab.running [] [("B2", 39000); ("A1", 0); ("C3", 20000)])
  = UndefinedBehaviour.
Proof.
  apply (sweep_meeting_an_expired_record_is_undefined _ _ "A1" 0).
  - apply elem_of_cons. right. apply elem_of_cons. by left.
  - vm_compute. reflexivity.
Defined.

Lemma sweep_keeps_records_within_expiry_witness :
  onExpiryTimeout (Lab.world 40000 40816)
                  (Lab.running [] [("A1", 10000); ("B2", 50000)])
  = Returns (Lab.running [] [("A1", 10000); ("B2", 50000)]).
Proof.
  apply sweep_keeps_records_within_expiry.
  - vm_compute. split; [discriminate|reflexivity].
  - repeat constructor; vm_compute; first [discriminate|reflexivity].
Defined.

Section Tick.
Context `{QtText}.

Lemma size_insertBroadcast addresses entries :
  (size (foldl insertBroadcast addresses entries)
   ≤ size addresses + length entries)%nat.
Proof.
  revert addresses.
  induction entries as [|e entries IH]; intros addresses; cbn; [lia|].
  etrans; [apply IH|]. unfold insertBroadcast.
  destruct (isNull (broadcast e)); [lia|].
  rewrite size_union_alt, size_singleton.
  assert (size (addresses ∖ {[broadcast e]}) ≤ size addresses)%nat
    by (apply subseteq_size; intros x ?%elem_of_difference; tauto).
  lia.
Qed.

Lemma size_insertInterface addresses interfaces :
  (size (foldl insertInterface addresses interfaces)
   ≤ size addresses
     + length (concat (map addressEntries
                           (List.filter
                              (λ i, negb (Z.eqb (Z.land (flags i) CanBroadcast) 0%Z))
                              interfaces))))%nat.
Proof.
  revert addresses.
  induction interfaces as [|i interfaces IH]; intros addresses; cbn; [lia|].
  etrans; [apply IH|]. unfold insertInterface.
  destruct (Z.eqb (Z.land (flags i) CanBroadcast) 0%Z); cbn; [lia|].
  rewrite length_app.
  pose proof (size_insertBroadcast addresses (addressEntries i)). lia.
Qed.

(** X4.  When no broadcast-capable interface has an entry with a
    non-null broadcast address (no interfaces at all, loopback only,
    IPv6 only), a tick writes no datagram and leaves the object
    exactly as it was. *)
Theorem tick_without_broadcast_address_does_nothing w st :
  (∀ interface entry,
     interface ∈ allInterfaces w →
     Z.land (flags interface) CanBroadcast ≠ 0 →
     entry ∈ addressEntries interface →
     broadcast entry = NullAddress) →
  onBroadcastTimeout w st = st.
Proof.
  intros Hnone. rewrite onBroadcastTimeout_eq.
  assert (broadcastAddresses w = ∅) as ->.
  { apply set_eq. intros a. rewrite elem_of_broadcastAddresses.
    split; [|by intros ?%not_elem_of_empty].
    intros (Ha & i & e & Hi & Hc & He & Hb).
    destruct Ha. rewrite <- Hb. by eapply Hnone. }
  rewrite elements_empty. cbn. rewrite app_nil_r. by destruct st.
Qed.

(** X5.  A tick writes at most as many datagrams as the
    broadcast-capable interfaces have address entries. *)
Theorem tick_writes_at_most_one_datagram_per_entry w st :
  (length (effects (onBroadcastTimeout w st))
   ≤ length (effects st)
     + length (concat (map addressEntries
                           (List.filter
                              (λ i, negb (Z.eqb (Z.land (flags i) CanBroadcast) 0%Z))
                              (allInterfaces w)))))%nat.
Proof.
  rewrite onBroadcastTimeout_eq. cbn. rewrite length_app, length_map.
  pose proof (size_insertInterface ∅ (allInterfaces w)) as Hsize.
  rewrite size_empty in Hsize. unfold broadcastAddresses, size, set_size in *.
  cbn in *. lia.
Qed.

(** X7.  The set of addresses a tick writes to depends on which
    interfaces the host has, not on the order in which they are listed
    nor on how often one is listed. *)
Theorem broadcast_addresses_ignore_interface_order w1 w2 :
  (∀ interface, interface ∈ allInterfaces w1 ↔ interface ∈ allInterfaces w2) →
  broadcastAddresses w1 = broadcastAddresses w2.
Proof.
  intros Hsame. apply set_eq. intros a.
  rewrite !elem_of_broadcastAddresses.
  split; intros (Ha & i & e & Hi & Hrest); (split; [done|]);
    exists i, e; (split; [by apply Hsame|done]).
Qed.

End Tick.

Lemma tick_without_broadcast_address_does_nothing_witness :
  onBroadcastTimeout (H := Lab.text) Peers.offline (Lab.running [] [])
  = Lab.running [] [].
Proof.
  apply (tick_without_broadcast_address_does_nothing (H := Lab.text)).
  intros i e Hi Hc He.
  repeat (apply elem_of_cons in Hi as [->|Hi]);
    [by destruct Hc| |by apply elem_of_nil in Hi].
  repeat (apply elem_of_cons in He as [->|He]);
    [done|by apply elem_of_nil in He].
Defined.

Lemma broadcast_addresses_ignore_interface_order_witness :
  broadcastAddresses
    {| allInterfaces := Lab.interfaces; deviceUuid := "L0";
       deviceName := "Local"; settingsValue := λ _, 0;
       currentMSecsSinceEpoch := 0; sendAccepted := λ _ _, true;
       bindError := λ _, None |}
  = broadcastAddresses
      {| allInterfaces := reverse Lab.interfaces ++ Lab.interfaces;
         deviceUuid := "L0";
         deviceName := "Local"; settingsValue := λ _, 0;
         currentMSecsSinceEpoch := 0; sendAccepted := λ _ _, true;
         bindError := λ _, None |}.
Proof.
  apply broadcast_addresses_ignore_interface_order.
  intros i. cbn [allInterfaces]. rewrite elem_of_app, elem_of_reverse. tauto.
Defined.

Section Drain.
Context `{QtText}.

Lemma deviceUpdate_isUpdated d : isUpdated (deviceUpdate d) = true.
Proof. done. Qed.

(** X8.  A run of the receive loop touches nothing but the queue and
    the history: both timers, the peer table, and the socket's state,
    local port and error string are as before, and what it adds to
    the history are update signals only (no datagram is written, no
    removal is signalled, nothing is logged). *)
Theorem drain_changes_only_queue_and_history st :
  mBroadcastTimer (onReadyRead st) = mBroadcastTimer st ∧
  mExpiryTimer (onReadyRead st) = mExpiryTimer st ∧
  mDevices (onReadyRead st) = mDevices st ∧
  state (mSocket (onReadyRead st)) = state (mSocket st) ∧
  localPort (mSocket (onReadyRead st)) = localPort (mSocket st) ∧
  errorString (mSocket (onReadyRead st)) = errorString (mSocket st) ∧
  ∃ updates,
    effects (onReadyRead st) = effects st ++ updates ∧
    forallb isUpdated updates = true.
Proof.
  destruct (state (mSocket st)) eqn:Hs.
  - rewrite onReadyRead_unbound by done. rewrite Hs.
    do 6 (split; [done|]). exists []. by rewrite app_nil_r.
  - rewrite (onReadyRead_bound _ st Hs eq_refl). cbn.
    do 6 (split; [done|]). eexists. split; [done|].
    by induction (pendingDatagrams (mSocket st)).
Qed.

Lemma onReadyRead_nothing st :
  state (mSocket st) = UnconnectedState ∨ pendingDatagrams (mSocket st) = [] →
  onReadyRead st = st.
Proof.
  intros Hnothing. rewrite onReadyRead_eq.
  assert (hasPendingDatagrams (mSocket st) = false) as ->; [|done].
  unfold hasPendingDatagrams.
  destruct Hnothing as [-> | ->]; [done|]. by destruct (state (mSocket st)).
Qed.

(** X9.  With nothing to read, because the socket is not bound or
    because no datagram waits, the receive loop leaves the object
    exactly as it was. *)
Theorem drain_with_nothing_to_read_does_nothing st :
  state (mSocket st) = UnconnectedState ∨ pendingDatagrams (mSocket st) = [] →
  onReadyRead st = st.
Proof. apply onReadyRead_nothing. Qed.

(** X10.  Running the receive loop a second time right after the
    first adds nothing: the first run has emptied the queue. *)
Theorem drain_twice_is_drain_once st :
  onReadyRead (onReadyRead st) = onReadyRead st.
Proof.
  apply onReadyRead_nothing.
  destruct (state (mSocket st)) eqn:Hs.
  - left. by rewrite onReadyRead_unbound.
  - right. by rewrite (onReadyRead_bound _ st Hs eq_refl).
Qed.

(** X11.  Whatever the payload, the attributes of an update never hold
    a [uuid] entry, and their [addresses] entry is the one-element list
    of the sender's address as the socket saw it: a payload cannot
    choose the address it is reported under. *)
Theorem every_update_carries_the_observed_address d :
  ∃ uuid properties,
    deviceUpdate d = DeviceUpdated uuid properties ∧
    properties !! "uuid" = None ∧
    properties !! "addresses"
    = Some (VStringList [QHostAddress_toString (sender d)]).
Proof.
  unfold deviceUpdate, take. do 2 eexists. split; [done|]. split.
  - apply lookup_delete_eq.
  - rewrite lookup_delete_ne by done. apply lookup_insert_eq.
Qed.

(** X12.  A datagram whose payload decodes as an object without a
    [uuid] field is reported all the same, under the empty string as
    id, with all its decoded fields as attributes and [addresses] set
    to the sender's address. *)
Theorem object_without_uuid_is_reported_under_empty_id st i d o :
  state (mSocket st) = BoundState →
  pendingDatagrams (mSocket st) !! i = Some d →
  fromJson (payload d) = ObjectDocument o →
  o !! "uuid" = None →
  effects (onReadyRead st) !! (length (effects st) + i)%nat
  = Some (DeviceUpdated EmptyString
            (<["addresses" :=
                 VStringList [QHostAddress_toString (sender d)]]>
               (toVariantMap o))).
Proof.
  intros Hs Hd Ho Hnone. rewrite (onReadyRead_update _ _ _ Hs Hd).
  unfold deviceUpdate, take. rewrite Ho. cbn.
  rewrite lookup_insert_ne by done.
  unfold toVariantMap. rewrite lookup_fmap, Hnone. cbn.
  do 2 f_equal. apply delete_id.
  rewrite lookup_insert_ne by done. by rewrite lookup_fmap, Hnone.
Qed.

(** X13.  What one node broadcasts another decodes.  If the library's
    parser reads back the object its writer was given, a datagram
    whose payload is the packet [onBroadcastTimeout] builds for a node
    is reported by the receive loop under that node's uuid, with that
    node's name and the observed sender address as the only
    attributes.  Nothing compares the uuid with the receiver's own, so
    a node reports its own broadcasts too. *)
Theorem broadcast_packet_is_decoded_by_the_receiver w st i d :
  fromJson (toJson (<[UuidKey := JString (deviceUuid w)]>
                    (<[NameKey := JString (deviceName w)]> ∅)))
  = ObjectDocument (<[UuidKey := JString (deviceUuid w)]>
                    (<[NameKey := JString (deviceName w)]> ∅)) →
  state (mSocket st) = BoundState →
  pendingDatagrams (mSocket st) !! i = Some d →
  payload d = packet w →
  effects (onReadyRead st) !! (length (effects st) + i)%nat
  = Some (DeviceUpdated (deviceUuid w)
            (<["addresses" :=
                 VStringList [QHostAddress_toString (sender d)]]>
               {[ "name" := VString (deviceName w) ]})).
Proof.
  intros Hrt Hs Hd Hp. rewrite (onReadyRead_update _ _ _ Hs Hd).
  unfold deviceUpdate, take. rewrite Hp. unfold packet. rewrite Hrt. cbn.
  unfold toVariantMap, UuidKey, NameKey.
  rewrite lookup_insert_ne by done.
  rewrite lookup_fmap, lookup_insert_eq. cbn. do 2 f_equal.
Qed.

End Drain.

Lemma drain_with_nothing_to_read_does_nothing_witness :
  onReadyRead (H := Lab.text) (Lab.running [] [("A1", 0)])
  = Lab.running [] [("A1", 0)].
Proof.
  apply (drain_with_nothing_to_read_does_nothing (H := Lab.text)).
  right. reflexivity.
Defined.

Lemma object_without_uuid_is_reported_under_empty_id_witness :
  let d := {| payload := Peers.anonymous; sender := Lab.ipv4 192 168 1 23 |} in
  effects (onReadyRead (H := Peers.text) (Lab.running [d] []))
    !! (length (effects (Lab.running [d] [])) + 0)%nat
  = Some (DeviceUpdated EmptyString
            (<["addresses" := VStringList ["192.168.1.23"]]>
               (toVariantMap (<["name" := JString "Carol"]> ∅)))).
Proof.
  apply (object_without_uuid_is_reported_under_empty_id (H := Peers.text)
           (Lab.running [ {| payload := Peers.anonymous;
                             sender := Lab.ipv4 192 168 1 23 |} ] [])
           0%nat
           {| payload := Peers.anonymous; sender := Lab.ipv4 192 168 1 23 |}
           (<["name" := JString "Carol"]> ∅));
    vm_compute; reflexivity.
Defined.

(** Alice's tick, heard on another node from 192.168.1.20. *)
Lemma broadcast_packet_is_decoded_by_the_receiver_witness :
  let d := {| payload := packet (H := Lab.text) (Peers.alice 40816);
              sender := Lab.ipv4 192 168 1 20 |} in
  effects (onReadyRead (H := Lab.text) (Lab.running [d] []))
    !! (length (effects (Lab.running [d] [])) + 0)%nat
  = Some (DeviceUpdated "A1"
            (<["addresses" := VStringList ["192.168.1.20"]]>
               {[ "name" := VString "Alice" ]})).
Proof.
  apply (broadcast_packet_is_decoded_by_the_receiver (H := Lab.text)
           (Peers.alice 40816)
           (Lab.running [ {| payload := packet (H := Lab.text)
                                               (Peers.alice 40816);
                             sender := Lab.ipv4 192 168 1 20 |} ] [])
           0%nat
           {| payload := packet (H := Lab.text) (Peers.alice 40816);
              sender := Lab.ipv4 192 168 1 20 |});
    vm_compute; reflexivity.
Defined.

Section Notifications.
Context `{QtText}.

Lemma expiryChanged_restarted w st :
  Forall (λ r, ¬ expired w r) (mDevices st) →
  expiryChanged w st = Returns (expiryRestarted w st).
Proof.
  intros Hall. unfold expiryChanged. by rewrite onExpiryTimeout_kept.
Qed.

(** A notification on a table without expired records, reaction by
    reaction. *)
Lemma onSettingsChanged_kept w keys st :
  Forall (λ r, ¬ expired w r) (mDevices st) →
  onSettingsChanged w keys st =
  Returns
    (let st1 := if contains keys BroadcastInterval
                then intervalChanged w st else st in
     let st2 := if contains keys BroadcastExpiry
                then expiryRestarted w st1 else st1 in
     if contains keys BroadcastPort then portChanged w st2 else st2).
Proof.
  intros Hall. apply onSettingsChanged_after.
  destruct (contains keys BroadcastInterval); cbn [mbind Outcome_bind];
    destruct (contains keys BroadcastExpiry); try done;
    apply expiryChanged_restarted; [|done].
  by rewrite intervalChanged_eq.
Qed.

(** X14.  A notification that names none of the three keys of the
    enumerator, the empty notification among them, does nothing. *)
Theorem notification_of_other_keys_does_nothing w keys st :
  BroadcastInterval ∉ keys →
  BroadcastExpiry ∉ keys →
  BroadcastPort ∉ keys →
  onSettingsChanged w keys st = Returns st.
Proof.
  intros Hi He Hp. unfold onSettingsChanged, contains.
  by rewrite !bool_decide_eq_false_2.
Qed.

(** X15.  The outcome of a notification depends only on which keys it
    names: the order of the keys and their repetition make no
    difference, the reactions always run in the order interval,
    expiry, port. *)
Theorem notification_depends_on_named_keys_only w keys1 keys2 st :
  (∀ k, k ∈ keys1 ↔ k ∈ keys2) →
  onSettingsChanged w keys1 st = onSettingsChanged w keys2 st.
Proof.
  intros Hsame. unfold onSettingsChanged.
  assert (∀ k, contains keys1 k = contains keys2 k) as Hc
    by (intros k; apply bool_decide_ext, Hsame).
  by rewrite !Hc.
Qed.

(** X16.  A notification that names the port key and whose bind is
    granted leaves the socket bound to the stored value reduced modulo
    65536, when that is not 0: a port between 1 and 65535 whatever
    integer is stored; the datagrams that waited on the old socket are
    gone unread; nothing is logged for it. *)
Theorem granted_bind_uses_the_port_modulo_65536 w keys st :
  BroadcastPort ∈ keys →
  Forall (λ r, ¬ expired w r) (mDevices st) →
  settingsValue w BroadcastPort mod 65536 ≠ 0 →
  bindError w (settingsValue w BroadcastPort mod 65536) = None →
  ∃ st' before,
    onSettingsChanged w keys st = Returns st' ∧
    effects st' =
      before ++ [SocketClose;
                 SocketBind AnyAddress
                            (settingsValue w BroadcastPort mod 65536) true] ∧
    state (mSocket st') = BoundState ∧
    localPort (mSocket st') = settingsValue w BroadcastPort mod 65536 ∧
    0 < localPort (mSocket st') < 65536 ∧
    pendingDatagrams (mSocket st') = [].
Proof.
  intros Hkey Hall Hport Hbind.
  rewrite (onSettingsChanged_kept _ _ _ Hall). cbv zeta.
  rewrite (contains_true _ _ Hkey).
  rewrite (portChanged_granted _ _ Hbind).
  do 2 eexists. split; [done|]. cbn. split; [done|].
  do 2 (split; [done|]). split; [|done].
  unfold to_quint16 in *.
  pose proof (Z.mod_pos_bound (settingsValue w BroadcastPort) 65536). lia.
Qed.

(** X17.  A notification that names the expiry key, on a table without
    expired records, stops the expiry timer, sets its interval to the
    stored value and starts it again, in this order; the timer then
    runs at the stored interval, the peer table is as before and no
    removal is signalled. *)
Theorem expiry_notification_restarts_the_expiry_timer w keys st :
  BroadcastExpiry ∈ keys →
  Forall (λ r, ¬ expired w r) (mDevices st) →
  ∃ st' before after,
    onSettingsChanged w keys st = Returns st' ∧
    effects st' =
      before
      ++ [TimerStop ExpiryTimer;
          TimerSetInterval ExpiryTimer (settingsValue w BroadcastExpiry);
          TimerStart ExpiryTimer]
      ++ after ∧
    mExpiryTimer st' =
      {| isActive := true; interval := settingsValue w BroadcastExpiry |} ∧
    mDevices st' = mDevices st ∧
    List.filter isRemoved before = List.filter isRemoved (effects st) ∧
    List.filter isRemoved after = [].
Proof.
  intros Hkey Hall.
  rewrite (onSettingsChanged_kept _ _ _ Hall). cbv zeta.
  rewrite (contains_true _ _ Hkey).
  set (st1 := if contains keys BroadcastInterval
              then intervalChanged w st else st).
  assert (mDevices st1 = mDevices st ∧
          List.filter isRemoved (effects st1)
          = List.filter isRemoved (effects st)) as [Hd1 Hr1].
  { unfold st1. destruct (contains keys BroadcastInterval); [|done].
    rewrite intervalChanged_eq. cbn. split; [done|].
    rewrite List.filter_app. cbn. rewrite List.filter_app.
    rewrite <- (app_nil_r (List.filter isRemoved (effects st))) at 2.
    f_equal. rewrite app_nil_r.
    by induction (elements (broadcastAddresses w)). }
  assert (effects (expiryRestarted w st1)
          = effects st1
            ++ [TimerStop ExpiryTimer;
                TimerSetInterval ExpiryTimer (settingsValue w BroadcastExpiry);
                TimerStart ExpiryTimer]) as Heff
    by (unfold expiryRestarted, timerStart, timerSetInterval, timerStop,
          perform; cbn; by rewrite <- !app_assoc).
  destruct (contains keys BroadcastPort).
  - destruct (bindError w (to_quint16 (settingsValue w BroadcastPort)))
      as [e|] eqn:He.
    + rewrite (portChanged_refused _ _ _ He). cbn [effects mExpiryTimer mDevices].
      eexists _, (effects st1), _. split; [done|].
      rewrite Heff, <- app_assoc. by split.
    + rewrite (portChanged_granted _ _ He). cbn [effects mExpiryTimer mDevices].
      eexists _, (effects st1), _. split; [done|].
      rewrite Heff, <- app_assoc. by split.
  - eexists _, (effects st1), []. split; [done|].
    rewrite Heff. by split.
Qed.

End Notifications.

Lemma notification_of_other_keys_does_nothing_witness :
  onSettingsChanged (H := Lab.text) (Lab.world 0 80)
    ["TransferPort"; "DeviceName"] (Lab.running [] [("A1", 0)])
  = Returns (Lab.running [] [("A1", 0)]).
Proof.
  apply (notification_of_other_keys_does_nothing (H := Lab.text));
    intros Hin;
    repeat (apply elem_of_cons in Hin as [Hin|Hin]; [discriminate Hin|]);
    by apply elem_of_nil in Hin.
Defined.

Lemma notification_depends_on_named_keys_only_witness :
  onSettingsChanged (H := Lab.text) (Lab.world 0 80)
    [BroadcastPort; BroadcastInterval; BroadcastPort] (Lab.running [] [])
  = onSettingsChanged (H := Lab.text) (Lab.world 0 80)
      [BroadcastInterval; BroadcastPort] (Lab.running [] []).
Proof.
  apply (notification_depends_on_named_keys_only (H := Lab.text)).
  intros k. rewrite !elem_of_cons. tauto.
Defined.

(** The stored port is 105352 = 65536 + 39816. *)
Lemma granted_bind_uses_the_port_modulo_65536_witness :
  ∃ st' before,
    onSettingsChanged (H := Lab.text) (Peers.alice 105352) [BroadcastPort]
                      (Lab.running [] [])
    = Returns st' ∧
    effects st' =
      before ++ [SocketClose;
                 SocketBind AnyAddress
                   (settingsValue (Peers.alice 105352) BroadcastPort
                    mod 65536) true] ∧
    state (mSocket st') = BoundState ∧
    localPort (mSocket st')
    = settingsValue (Peers.alice 105352) BroadcastPort mod 65536 ∧
    0 < localPort (mSocket st') < 65536 ∧
    pendingDatagrams (mSocket st') = [].
Proof.
  apply (granted_bind_uses_the_port_modulo_65536 (H := Lab.text)).
  - apply elem_of_cons. by left.
  - constructor.
  - vm_compute. discriminate.
  - reflexivity.
Defined.

Lemma expiry_notification_restarts_the_expiry_timer_witness :
  ∃ st' before after,
    onSettingsChanged (H := Lab.text) (Lab.world 40000 40816)
      [BroadcastExpiry] (Lab.running [] [("A1", 39000)])
    = Returns st' ∧
    effects st' =
      before
      ++ [TimerStop ExpiryTimer;
          TimerSetInterval ExpiryTimer
            (settingsValue (Lab.world 40000 40816) BroadcastExpiry);
          TimerStart ExpiryTimer]
      ++ after ∧
    mExpiryTimer st' =
      {| isActive := true;
         interval := settingsValue (Lab.world 40000 40816) BroadcastExpiry |} ∧
    mDevices st' = mDevices (Lab.running [] [("A1", 39000)]) ∧
    List.filter isRemoved before
    = List.filter isRemoved (effects (Lab.running [] [("A1", 39000)])) ∧
    List.filter isRemoved after = [].
Proof.
  apply (expiry_notification_restarts_the_expiry_timer (H := Lab.text)).
  - apply elem_of_cons. by left.
  - repeat constructor. vm_compute. discriminate.
Defined.

Section Life.
Context `{QtText}.

Lemma removed_announce w port addresses :
  List.filter isRemoved (map (announce w port) addresses) = [].
Proof. by induction addresses. Qed.

Lemma removed_deviceUpdate ds :
  List.filter isRemoved (map deviceUpdate ds) = [].
Proof. by induction ds. Qed.

Lemma removed_none es uuid :
  List.filter isRemoved es = [] → DeviceRemoved uuid ∉ es.
Proof.
  intros Hnone Hin. apply list_elem_of_In in Hin.
  assert (In (DeviceRemoved uuid) (List.filter isRemoved es)) as Hin'
    by (by apply List.filter_In).
  by rewrite Hnone in Hin'.
Qed.

Lemma Settled_onBroadcastTimeout w st :
  Settled st → Settled (onBroadcastTimeout w st).
Proof.
  intros [Hd Hr Hb He Hp Hu]. rewrite onBroadcastTimeout_eq.
  split; cbn; try done.
  by rewrite List.filter_app, Hr, removed_announce.
Qed.

Lemma Settled_arrive ds st : Settled st → Settled (arrive ds st).
Proof.
  intros Hst. unfold arrive.
  destruct (state (mSocket st)) eqn:Hs; [done|].
  destruct Hst. by split.
Qed.

Lemma Settled_onReadyRead st : Settled st → Settled (onReadyRead st).
Proof.
  intros Hst.
  destruct (state (mSocket st)) eqn:Hs.
  - by rewrite onReadyRead_unbound.
  - rewrite (onReadyRead_bound _ st Hs eq_refl).
    destruct Hst as [Hd Hr Hb He Hp Hu]. split; cbn; try done.
    by rewrite List.filter_app, Hr, removed_deviceUpdate.
Qed.

Lemma Settled_intervalChanged w st :
  Settled st → Settled (intervalChanged w st).
Proof.
  intros [Hd Hr Hb He Hp Hu]. rewrite intervalChanged_eq.
  split; cbn; try done.
  rewrite List.filter_app, Hr. cbn.
  by rewrite List.filter_app, removed_announce.
Qed.

Lemma Settled_expiryRestarted w st :
  Settled st → Settled (expiryRestarted w st).
Proof.
  intros [Hd Hr Hb He Hp Hu].
  unfold expiryRestarted, timerStart, timerSetInterval, timerStop, perform.
  split; cbn; try done.
  by rewrite !List.filter_app, Hr.
Qed.

(** The port reaction needs nothing of the socket it replaces. *)
Lemma Settled_portChanged w st :
  mDevices st = [] →
  List.filter isRemoved (effects st) = [] →
  isActive (mBroadcastTimer st) = true →
  isActive (mExpiryTimer st) = true →
  Settled (portChanged w st).
Proof.
  intros Hd Hr Hb He.
  destruct (bindError w (to_quint16 (settingsValue w BroadcastPort)))
    as [e|] eqn:Hbind.
  - rewrite (portChanged_refused _ _ _ Hbind). split; cbn; try done.
    by rewrite List.filter_app, Hr.
  - rewrite (portChanged_granted _ _ Hbind). split; cbn; try done.
    + by rewrite List.filter_app, Hr.
    + unfold to_quint16. by apply Z.mod_pos_bound.
Qed.

Lemma Settled_onSettingsChanged w keys st :
  Settled st →
  ∃ st', onSettingsChanged w keys st = Returns st' ∧ Settled st'.
Proof.
  intros Hst. eexists. split.
  - apply onSettingsChanged_kept.
    rewrite (settled_devices _ Hst). constructor.
  - cbv zeta.
    assert (Settled (if contains keys BroadcastInterval
                     then intervalChanged w st else st)) as Hst1
      by (destruct (contains keys BroadcastInterval);
            [by apply Settled_intervalChanged|done]).
    set (st1 := if contains keys BroadcastInterval
                then intervalChanged w st else st) in *.
    assert (Settled (if contains keys BroadcastExpiry
                     then expiryRestarted w st1 else st1)) as Hst2
      by (destruct (contains keys BroadcastExpiry);
            [by apply Settled_expiryRestarted|done]).
    destruct (contains keys BroadcastPort); [|done].
    destruct Hst2. by apply Settled_portChanged.
Qed.

Lemma Settled_constructor w :
  ∃ st, constructor w = Returns st ∧ Settled st.
Proof.
  unfold constructor. eexists. split.
  - apply onSettingsChanged_kept. constructor.
  - cbv zeta.
    change (contains _ BroadcastInterval) with true.
    change (contains _ BroadcastExpiry) with true.
    change (contains _ BroadcastPort) with true. cbv iota.
    apply Settled_portChanged.
    + by rewrite intervalChanged_eq.
    + unfold expiryRestarted, timerStart, timerSetInterval, timerStop,
        perform. rewrite intervalChanged_eq. cbn.
      rewrite !List.filter_app, removed_announce. done.
    + by rewrite intervalChanged_eq.
    + done.
Qed.

Lemma Settled_deliver w s st :
  Settled st → ∃ st', deliver w s st = Returns st' ∧ Settled st'.
Proof.
  intros Hst. destruct s as [| |arrived|keys]; cbn.
  - eexists. split; [done|]. by apply Settled_onBroadcastTimeout.
  - exists st. split; [|done].
    apply onExpiryTimeout_empty. by destruct Hst.
  - eexists. split; [done|]. by apply Settled_onReadyRead, Settled_arrive.
  - by apply Settled_onSettingsChanged.
Qed.

Lemma Settled_run steps : ∀ st,
  Settled st → ∃ st', run steps st = Returns st' ∧ Settled st'.
Proof.
  induction steps as [|[w s] steps IH]; intros st Hst; cbn.
  - by exists st.
  - destruct (Settled_deliver w s st Hst) as (st1 & -> & Hst1). cbn.
    by apply IH.
Qed.

Lemma Settled_life w0 steps :
  ∃ st, life w0 steps = Returns st ∧ Settled st.
Proof.
  unfold life. destruct (Settled_constructor w0) as (st0 & -> & Hst0).
  cbn. by apply Settled_run.
Qed.

(** X19.  Over the whole life of the object, whatever signals are
    delivered in whatever surroundings (timer ticks, datagrams
    arriving, settings notifications), every slot returns, the peer
    table stays empty and no removal is ever signalled: nothing in the
    class puts a record into [mDevices], so the expiry sweep never
    finds one. *)
Theorem peer_table_stays_empty_for_life w0 steps :
  ∃ st,
    life w0 steps = Returns st ∧
    mDevices st = [] ∧
    ∀ uuid, DeviceRemoved uuid ∉ effects st.
Proof.
  destruct (Settled_life w0 steps) as (st & Hlife & Hst).
  exists st. split; [done|]. destruct Hst. split; [done|].
  intros uuid. by apply removed_none.
Qed.

(** X20.  Over the whole life of the object both timers are running
    whenever a slot has returned (no slot stops a timer without
    starting it again), the socket's local port is between 0 and
    65535, and a socket that is not bound has local port 0 and nothing
    waiting on it. *)
Theorem timers_run_and_socket_is_consistent_for_life w0 steps :
  ∃ st,
    life w0 steps = Returns st ∧
    isActive (mBroadcastTimer st) = true ∧
    isActive (mExpiryTimer st) = true ∧
    0 ≤ localPort (mSocket st) < 65536 ∧
    (state (mSocket st) = UnconnectedState →
     localPort (mSocket st) = 0 ∧ pendingDatagrams (mSocket st) = []).
Proof.
  destruct (Settled_life w0 steps) as (st & Hlife & Hst).
  exists st. by destruct Hst.
Qed.

End Life.

Section NoSweep.
Context `{QtText}.

(** X21.  A notification that does not name the expiry key never runs
    the sweep: whatever the peer table holds, expired records
    included, it returns, leaves the table as it is and signals no
    removal. *)
Theorem notification_without_expiry_key_never_sweeps w keys st :
  BroadcastExpiry ∉ keys →
  ∃ st',
    onSettingsChanged w keys st = Returns st' ∧
    mDevices st' = mDevices st ∧
    List.filter isRemoved (effects st')
    = List.filter isRemoved (effects st).
Proof.
  intros Hkey. unfold onSettingsChanged.
  assert (contains keys BroadcastExpiry = false) as ->
    by (by apply bool_decide_eq_false_2).
  set (st1 := if contains keys BroadcastInterval
              then intervalChanged w st else st).
  assert (mDevices st1 = mDevices st ∧
          List.filter isRemoved (effects st1)
          = List.filter isRemoved (effects st)) as [Hd1 Hr1].
  { unfold st1. destruct (contains keys BroadcastInterval); [|done].
    rewrite intervalChanged_eq. cbn. split; [done|].
    rewrite List.filter_app. cbn.
    by rewrite List.filter_app, removed_announce, !app_nil_r. }
  exists (if contains keys BroadcastPort then portChanged w st1 else st1).
  split.
  - unfold st1.
    by destruct (contains keys BroadcastInterval),
                (contains keys BroadcastPort).
  - destruct (contains keys BroadcastPort); [|done].
    destruct (bindError w (to_quint16 (settingsValue w BroadcastPort)))
      as [e|] eqn:He.
    + rewrite (portChanged_refused _ _ _ He). cbn. split; [done|].
      by rewrite List.filter_app, Hr1, app_nil_r.
    + rewrite (portChanged_granted _ _ He). cbn. split; [done|].
      by rewrite List.filter_app, Hr1, app_nil_r.
Qed.

End NoSweep.

(** A1 was last seen 40000 ms ago, beyond the expiry of 30000. *)
Lemma notification_without_expiry_key_never_sweeps_witness :
  ∃ st',
    onSettingsChanged (H := Lab.text) (Lab.world 40000 40816)
      [BroadcastInterval; BroadcastPort] (Lab.running [] [("A1", 0)])
    = Returns st' ∧
    mDevices st' = mDevices (Lab.running [] [("A1", 0)]) ∧
    List.filter isRemoved (effects st')
    = List.filter isRemoved (effects (Lab.running [] [("A1", 0)])).
Proof.
  apply (notification_without_expiry_key_never_sweeps (H := Lab.text)).
  intros Hin.
  repeat (apply elem_of_cons in Hin as [Hin|Hin]; [discriminate Hin|]).
  by apply elem_of_nil in Hin.
Defined.

Section AnySocket.
Context `{QtText}.

Lemma set_mSocket_same st : set_mSocket (mSocket st) st = st.
Proof. by destruct st. Qed.

(** On a bound socket the write binds nothing. *)
Lemma broadcastPacketAny_bound w chosen data addresses : ∀ st,
  state (mSocket st) = BoundState →
  broadcastPacketAny w chosen data addresses st
  = broadcastPacket w data addresses st.
Proof.
  unfold broadcastPacketAny, broadcastPacket.
  induction addresses as [|a addresses IH]; intros st Hs; cbn; [done|].
  unfold writeDatagramAny at 2, implicitBind. rewrite Hs, set_mSocket_same.
  by apply IH.
Qed.

Lemma broadcastPacketAny_cons w chosen data a addresses st :
  broadcastPacketAny w chosen data (a :: addresses) st
  = broadcastPacketAny w chosen data addresses
      (writeDatagramAny w chosen data a (localPort (mSocket st)) st).
Proof. done. Qed.

(** C10, as the code has it.  With the socket not bound, so that its
    local port reads 0, a tick is not skipped: it writes one datagram
    for each non-null broadcast address of an entry of a
    broadcast-capable interface.  The first is addressed to port 0;
    writing it binds the socket to a port of the operating system's
    choice, and the datagrams after it are addressed to that port.
    The socket is bound when the tick returns, unless there was no
    address to write to. *)
Theorem tick_on_unbound_socket_binds_it w chosen st :
  state (mSocket st) = UnconnectedState →
  localPort (mSocket st) = 0 →
  0 < chosen < 65536 →
  ∃ targets : list QHostAddress,
    NoDup targets ∧
    (∀ a, a ∈ targets ↔
          a ≠ NullAddress ∧
          ∃ interface entry,
            interface ∈ allInterfaces w ∧
            Z.land (flags interface) CanBroadcast ≠ 0 ∧
            entry ∈ addressEntries interface ∧ broadcast entry = a) ∧
    effects (onBroadcastTimeoutAny w chosen st) =
      effects st ++
      match targets with
      | [] => []
      | first :: others =>
          WriteDatagram
            (toJson (<[UuidKey := JString (deviceUuid w)]>
                     (<[NameKey := JString (deviceName w)]> ∅)))
            first 0 (sendAccepted w first 0)
          :: map (λ a, WriteDatagram
                         (toJson (<[UuidKey := JString (deviceUuid w)]>
                                  (<[NameKey := JString (deviceName w)]> ∅)))
                         a chosen (sendAccepted w a chosen))
                 others
      end ∧
    (targets = [] → onBroadcastTimeoutAny w chosen st = st) ∧
    (targets ≠ [] →
     state (mSocket (onBroadcastTimeoutAny w chosen st)) = BoundState ∧
     localPort (mSocket (onBroadcastTimeoutAny w chosen st)) = chosen).
Proof.
  intros Hs Hport Hchosen.
  exists (elements (broadcastAddresses w)). split; [apply NoDup_elements|].
  split.
  { intros a. rewrite elem_of_elements. apply elem_of_broadcastAddresses. }
  unfold onBroadcastTimeoutAny.
  destruct (elements (broadcastAddresses w)) as [|a others].
  { cbn. rewrite app_nil_r. by split. }
  cbv zeta. rewrite broadcastPacketAny_cons.
  unfold writeDatagramAny, implicitBind. rewrite Hs, Hport.
  rewrite broadcastPacketAny_bound by done.
  rewrite broadcastPacket_eq. cbn.
  assert (to_quint16 chosen = chosen) as ->
    by (unfold to_quint16; apply Z.mod_small; lia).
  split; [by rewrite <- app_assoc|]. by split.
Qed.


End AnySocket.

(** C10, as claimed, fails.  A refused bind of port 80 has left the
    socket unconnected; the operating system would choose port 49152.
    Of the three datagrams of the next tick only the first is
    addressed to port 0. *)
Lemma unbound_tick_targets_port_0_only_once :
  state (mSocket (portChanged (Lab.world 0 80) (Lab.running [] [])))
  = UnconnectedState ∧
  effects (onBroadcastTimeoutAny (H := Lab.text) (Lab.world 0 80) 49152
             (portChanged (Lab.world 0 80) (Lab.running [] [])))
  = effects (portChanged (Lab.world 0 80) (Lab.running [] []))
    ++ [ WriteDatagram (Lab.announcement "L0" "Local")
                       (Lab.ipv4 172 16 0 255) 0 true;
         WriteDatagram (Lab.announcement "L0" "Local")
                       (Lab.ipv4 10 0 0 255) 49152 false;
         WriteDatagram (Lab.announcement "L0" "Local")
                       (Lab.ipv4 192 168 1 255) 49152 true ].
Proof. split; vm_compute; reflexivity. Qed.

Lemma tick_on_unbound_socket_binds_it_witness :
  ∃ targets : list QHostAddress,
    NoDup targets ∧
    (∀ a, a ∈ targets ↔
          a ≠ NullAddress ∧
          ∃ interface entry,
            interface ∈ allInterfaces (Lab.world 0 80) ∧
            Z.land (flags interface) CanBroadcast ≠ 0 ∧
            entry ∈ addressEntries interface ∧ broadcast entry = a) ∧
    effects (onBroadcastTimeoutAny (H := Lab.text) (Lab.world 0 80) 49152
               (portChanged (Lab.world 0 80) (Lab.running [] []))) =
      effects (portChanged (Lab.world 0 80) (Lab.running [] [])) ++
      match targets with
      | [] => []
      | first :: others =>
          WriteDatagram (Lab.announcement "L0" "Local") first 0
                        (sendAccepted (Lab.world 0 80) first 0)
          :: map (λ a, WriteDatagram (Lab.announcement "L0" "Local") a 49152
                         (sendAccepted (Lab.world 0 80) a 49152))
                 others
      end ∧
    (targets = [] →
     onBroadcastTimeoutAny (H := Lab.text) (Lab.world 0 80) 49152
       (portChanged (Lab.world 0 80) (Lab.running [] []))
     = portChanged (Lab.world 0 80) (Lab.running [] [])) ∧
    (targets ≠ [] →
     state (mSocket (onBroadcastTimeoutAny (H := Lab.text) (Lab.world 0 80)
                       49152
                       (portChanged (Lab.world 0 80) (Lab.running [] []))))
     = BoundState ∧
     localPort (mSocket (onBroadcastTimeoutAny (H := Lab.text)
                           (Lab.world 0 80) 49152
                           (portChanged (Lab.world 0 80) (Lab.running [] []))))
     = 49152).
Proof.
  apply (tick_on_unbound_socket_binds_it (H := Lab.text)
           (Lab.world 0 80) 49152
           (portChanged (Lab.world 0 80) (Lab.running [] []))).
  - reflexivity.
  - reflexivity.
  - split; reflexivity.
Defined.

